(** * recode-cols-py: codebook compilation and column recoding

    A shallow embedding of [src/setup/create_codebook.py]
    ([create_dict_pl], [create_dict_pd]) and of the recoding calls of
    [src/main.py], together with the properties of the written
    specification that concern them.

    Modelling choices.
    - A cell holds a Python [int] or [str] (the annotation
      [dict[str, dict[int|str, int|str]]] of both compile functions).
      Cells are compared with Python's [==]; an [int] never equals a
      [str], and no coercion is written anywhere in the source.
    - A Python [dict] keeps its keys in insertion order, and the order
      of the outer keys is observable in [for col in list(nested_dict_pl)],
      so a dict is an association list updated the way [d[k] = v] does:
      in place when the key is there, at the end otherwise.
    - A data frame is an ordered collection of named columns, each a
      list of cells.  Both engines only build rectangular frames; this
      is the predicate [rectangular].
    - The calls into pandas and polars ([group_by], [agg], [groupby],
      [replace], [with_columns]) are modelled by what they are
      documented to compute on such frames.
    - pandas' [replace] compares the cells of a column with the keys of
      the mapping as they are.  polars' [replace] works in the data
      type of the column: it casts the old and the new values of the
      mapping.  When the cells, the old values and the new values are
      of one data type, no cast changes anything and polars replaces
      like pandas.  When they are not, the outcome depends on the
      installed polars (cells and keys are cast, or
      [InvalidOperationError] is raised); nothing in the source decides
      it, so it is a parameter, [engine : polars], of the polars
      recoding, and what is stated of the polars recoding holds for
      every such behaviour.
    - What the data-frame engines raise is an explicit [result]. *)

From stdpp Require Import strings numbers option list.

Local Open Scope Z_scope.
Local Open Scope string_scope.
Local Open Scope list_scope.

(** ** Cells *)

Inductive value : Type :=
| VInt (z : Z)
| VStr (s : string).

#[global] Instance value_eq_dec : EqDecision value.
Proof. solve_decision. Defined.

(** ** Exceptions raised by the engines, and the result monad *)

Inductive exn : Type :=
| ColumnNotFoundError (name : string)   (* polars: unknown column in an expression *)
| DuplicateError (name : string)        (* polars: two output columns of one name *)
| KeyError (name : string)              (* pandas: unknown column label *)
| DictKeyError                          (* [d[k]] on a dict without [k] *)
| TypeError                             (* polars: [pl.col] of something not a [str] *)
| InvalidOperationError.                (* polars: a cast that [replace] needs has failed *)

Inductive result (A : Type) : Type :=
| Ok (a : A)
| Raise (e : exn).
Arguments Ok {A} a.
Arguments Raise {A} e.

#[global] Instance result_ret : MRet result := fun A a => Ok a.

#[global] Instance result_bind : MBind result := fun A B k r =>
  match r with
  | Ok a => k a
  | Raise e => Raise e
  end.

(** [[f(x) for x in xs]] where [f] may raise: the first exception wins. *)
Fixpoint mapM {A B : Type} (f : A -> result B) (xs : list A) : result (list B) :=
  match xs with
  | [] => Ok []
  | x :: xs' => y ← f x; ys ← mapM f xs'; Ok (y :: ys)
  end.

(** ** Python dictionaries (insertion ordered) *)

Module Dict.
Section dict.
Context {K V : Type} `{EqDecision K}.

(** [d.get(k)] *)
Fixpoint get (d : list (K * V)) (k : K) : option V :=
  match d with
  | [] => None
  | (k', v) :: d' => if decide (k' = k) then Some v else get d' k
  end.

(** [d[k] = v] *)
Fixpoint set (d : list (K * V)) (k : K) (v : V) : list (K * V) :=
  match d with
  | [] => [(k, v)]
  | (k', v') :: d' =>
      if decide (k' = k) then (k', v) :: d' else (k', v') :: set d' k v
  end.

(** [list(d)] *)
Definition keys (d : list (K * V)) : list K := fst <$> d.

(** [dict(pairs)] *)
Definition of_pairs (ps : list (K * V)) : list (K * V) :=
  fold_left (fun d p => set d p.1 p.2) ps [].

(** [d[k]] *)
Definition getitem (d : list (K * V)) (k : K) : result V :=
  match get d k with
  | Some v => Ok v
  | None => Raise DictKeyError
  end.

End dict.
End Dict.

(** [dict(zip(xs, ys))]; Python's [zip] stops at the shorter argument. *)
Definition dict_zip (xs ys : list value) : list (value * value) :=
  Dict.of_pairs (zip xs ys).

(** ** Data frames *)

(** Named columns in frame order.  Column names are strings, as both
    [read_csv] functions produce them. *)
Abbreviation DataFrame := (list (string * list value)).

(** What the compile functions return: the outer keys are the cells of
    the column-name field. *)
Abbreviation Codebook := (list (value * list (value * value))).

Definition column_names (df : DataFrame) : list string := fst <$> df.

Definition height (df : DataFrame) : nat :=
  match df with
  | [] => 0%nat
  | (_, cells) :: _ => length cells
  end.

Definition rectangular (df : DataFrame) : Prop :=
  Forall (fun c => length c.2 = height df) df.

#[global] Instance rectangular_dec df : Decision (rectangular df).
Proof. unfold rectangular. apply _. Defined.

(** ** Grouping, as both engines do it when asked to keep the order *)

(** The distinct keys in the order in which a single pass over the key
    column meets them ([maintain_order=True] in polars, [sort=False] in
    pandas); [seen] holds the keys met so far. *)
Fixpoint group_keys_from (seen ks : list value) : list value :=
  match ks with
  | [] => []
  | k :: ks' =>
      if decide (k ∈ seen) then group_keys_from seen ks'
      else k :: group_keys_from (k :: seen) ks'
  end.

Definition group_keys (ks : list value) : list value := group_keys_from [] ks.

(** The cells of [xs] on the rows whose key is [g], in row order. *)
Definition take_group {A : Type} (g : value) (ks : list value) (xs : list A) : list A :=
  snd <$> filter (fun p => p.1 = g) (zip ks xs).

(** ** polars: [create_dict_pl] *)

(** [pl.col(name)] evaluated on [df]. *)
Definition col (df : DataFrame) (name : string) : result (list value) :=
  match Dict.get df name with
  | Some cells => Ok cells
  | None => Raise (ColumnNotFoundError name)
  end.

(** One row of [iter_rows(named=True)] over the aggregated frame: the
    group key under [col_name] and the two list cells under
    [old_val_col] and [new_val_col]. *)
Record agg_row : Type := { key : value; olds : list value; news : list value }.

(** [df.group_by(col_name, maintain_order=True)
       .agg(pl.col(old_val_col), pl.col(new_val_col)).iter_rows(named=True)].
    The output frame has the columns [col_name], [old_val_col] and
    [new_val_col]; polars refuses an output with two columns of one name. *)
Definition group_by_agg (df : DataFrame) (col_name old_val_col new_val_col : string)
  : result (list agg_row) :=
  ks ← col df col_name;
  os ← col df old_val_col;
  ns ← col df new_val_col;
  if decide (old_val_col = col_name) then Raise (DuplicateError old_val_col)
  else if decide (new_val_col = col_name ∨ new_val_col = old_val_col)
  then Raise (DuplicateError new_val_col)
  else Ok ((fun g => {| key := g;
                        olds := take_group g ks os;
                        news := take_group g ks ns |}) <$> group_keys ks).

(** The dict comprehension of [create_dict_pl]:
    [{row[col_name]: dict(zip(row[old_val_col], row[new_val_col])) for row in rows}]. *)
Definition nested_of_rows (rows : list agg_row) : Codebook :=
  fold_left (fun d row => Dict.set d (key row) (dict_zip (olds row) (news row))) rows [].

Definition create_dict_pl (df : DataFrame) (col_name old_val_col new_val_col : string)
  : result Codebook :=
  rows ← group_by_agg df col_name old_val_col new_val_col;
  Ok (nested_of_rows rows).

(** ** pandas: [create_dict_pd] *)

(** [df[name]] *)
Definition getitem_pd (df : DataFrame) (name : string) : result (list value) :=
  match Dict.get df name with
  | Some cells => Ok cells
  | None => Raise (KeyError name)
  end.

(** Iterating [df.groupby(col_name, sort=False)]: the pairs of a key and
    the sub-frame of its rows, all columns kept. *)
Definition groupby (df : DataFrame) (col_name : string) : result (list (value * DataFrame)) :=
  ks ← getitem_pd df col_name;
  Ok ((fun g => (g, (fun c => (c.1, take_group g ks c.2)) <$> df)) <$> group_keys ks).

(** The body of [for var, col in ...: nested_dict[var] = dict(zip(col[old], col[new]))]. *)
Fixpoint create_dict_pd_loop (groups : list (value * DataFrame))
    (old_val_col new_val_col : string) (nested_dict : Codebook) : result Codebook :=
  match groups with
  | [] => Ok nested_dict
  | (var, sub) :: rest =>
      os ← getitem_pd sub old_val_col;
      ns ← getitem_pd sub new_val_col;
      create_dict_pd_loop rest old_val_col new_val_col
        (Dict.set nested_dict var (dict_zip os ns))
  end.

Definition create_dict_pd (df : DataFrame) (col_name old_val_col new_val_col : string)
  : result Codebook :=
  groups ← groupby df col_name;
  create_dict_pd_loop groups old_val_col new_val_col [].

(** ** Recoding ([src/main.py]) *)

(** What [replace] with a mapping does to one cell: the mapped value
    when the cell equals a key, the cell itself otherwise.  All cells
    are looked up in the mapping as given, so replacements do not chain. *)
Definition replace_value (m : list (value * value)) (v : value) : value :=
  default v (Dict.get m v).

Definition replace (m : list (value * value)) (cells : list value) : list value :=
  replace_value m <$> cells.

(** pandas: [data_pd.replace(to_replace=nested_dict_pd)].  For a nested
    dict, each column of the frame whose name is an outer key is replaced
    with the inner mapping of that key; outer keys that name no column
    of the frame are skipped. *)
Definition replace_column (nested : Codebook) (name : string) (cells : list value)
  : list value :=
  match Dict.get nested (VStr name) with
  | Some m => replace m cells
  | None => cells
  end.

Definition recode_pd (df : DataFrame) (nested : Codebook) : DataFrame :=
  (fun c => (c.1, replace_column nested c.1 c.2)) <$> df.

(** *** polars: data types

    A polars column has one data type.  Of the data types only those
    of the cells modelled here are needed. *)
Inductive dtype : Type := Int64 | Utf8.

#[global] Instance dtype_eq_dec : EqDecision dtype.
Proof. solve_decision. Defined.

Definition dtype_of (v : value) : dtype :=
  match v with
  | VInt _ => Int64
  | VStr _ => Utf8
  end.

(** A Python list of values of one type (the empty list among them):
    polars builds a series from it. *)
Definition homogeneous (vs : list value) : Prop :=
  Forall (fun v => dtype_of v = Int64) vs \/ Forall (fun v => dtype_of v = Utf8) vs.

#[global] Instance homogeneous_dec vs : Decision (homogeneous vs).
Proof. unfold homogeneous. apply _. Defined.

(** The old values of a mapping are of one type, and so are its new
    values. *)
Definition homogeneous_mapping (m : list (value * value)) : Prop :=
  homogeneous (Dict.keys m) /\ homogeneous (snd <$> m).

#[global] Instance homogeneous_mapping_dec m : Decision (homogeneous_mapping m).
Proof. unfold homogeneous_mapping. apply _. Defined.

(** The values [vs] make up a series of data type [T]: there is at
    least one, and each is of that type.  (The data type of an empty
    column is not known from its cells.) *)
Definition of_dtype (T : dtype) (vs : list value) : Prop :=
  vs <> [] /\ Forall (fun v => dtype_of v = T) vs.

#[global] Instance of_dtype_dec T vs : Decision (of_dtype T vs).
Proof. unfold of_dtype. apply _. Defined.

(** The cells of a column, the old values and the new values of a
    mapping are all of data type [T]. *)
Definition same_dtype (T : dtype) (m : list (value * value)) (cells : list value) : Prop :=
  of_dtype T cells /\ of_dtype T (Dict.keys m) /\ of_dtype T (snd <$> m).

#[global] Instance same_dtype_dec T m cells : Decision (same_dtype T m cells).
Proof. unfold same_dtype. apply _. Defined.

Definition one_dtype (m : list (value * value)) (cells : list value) : Prop :=
  same_dtype Int64 m cells \/ same_dtype Utf8 m cells.

#[global] Instance one_dtype_dec m cells : Decision (one_dtype m cells).
Proof. unfold one_dtype. apply _. Defined.

(** What the source leaves to the installed polars.
    - [mixed_mapping m]: making [replace(m)] when the old values of
      [m], or its new values, mix integers and strings; polars has to
      build a series from each, and does so or raises.
    - [cast_replace m cells]: evaluating [replace(m)] on a column when
      the cells, the old values and the new values are not of one data
      type; polars casts the mapping and possibly the cells, and
      returns a column or raises [InvalidOperationError]. *)
Record polars : Type := {
  mixed_mapping : list (value * value) -> result unit;
  cast_replace : list (value * value) -> list value -> result (list value) }.

(** *** polars: expressions *)

(** The expression [pl.col(c).replace(m).alias(a)]. *)
Record expr : Type := { e_col : string; e_mapping : list (value * value); e_alias : string }.

(** [pl.col(col)] takes a column name. *)
Definition pl_col (c : value) : result string :=
  match c with
  | VStr s => Ok s
  | VInt _ => Raise TypeError
  end.

(** [pl.col(c).replace(m).alias(a)], once [pl.col(c)] is made. *)
Definition replace_expr (engine : polars) (c : string) (m : list (value * value))
    (a : string) : result expr :=
  (if decide (homogeneous_mapping m) then Ok () else mixed_mapping engine m);;
  Ok {| e_col := c; e_mapping := m; e_alias := a |}.

(** [[pl.col(col).replace(nested[col]).alias(col) for col in list(nested)]] *)
Definition recode_expr_list (engine : polars) (nested : Codebook) : result (list expr) :=
  mapM (fun c =>
          name ← pl_col c;
          m ← Dict.getitem nested c;
          replace_expr engine name m name)
       (Dict.keys nested).

(** [replace] with a mapping, on the cells of one column.  Within one
    data type the casts of polars change nothing, and each cell that
    equals an old value is replaced by its new value, all at once.
    Otherwise the outcome is that of [engine]. *)
Definition pl_replace (engine : polars)
    (m : list (value * value)) (cells : list value) : result (list value) :=
  if decide (one_dtype m cells) then Ok (replace m cells) else cast_replace engine m cells.

(** The first step of [df.with_columns(exprs)]: each expression is
    resolved against the columns of [df], and a column that [df] does
    not have raises before any output column is computed. *)
Definition resolve (df : DataFrame) (e : expr) : result (expr * list value) :=
  cells ← col df (e_col e);
  Ok (e, cells).

(** The second step: the output column of a resolved expression. *)
Definition eval_expr (engine : polars) (ec : expr * list value)
  : result (string * list value) :=
  cells ← pl_replace engine (e_mapping ec.1) ec.2;
  Ok (e_alias ec.1, cells).

(** [df.with_columns(exprs)]: every expression is evaluated on [df];
    each output column replaces the column of its name, or is added. *)
Definition with_columns (engine : polars) (df : DataFrame) (exprs : list expr)
  : result DataFrame :=
  inputs ← mapM (resolve df) exprs;
  cols ← mapM (eval_expr engine) inputs;
  Ok (fold_left (fun d c => Dict.set d c.1 c.2) cols df).

(** [data_pl.with_columns(recode_expr_list)] *)
Definition recode_pl (engine : polars) (df : DataFrame) (nested : Codebook)
  : result DataFrame :=
  exprs ← recode_expr_list engine nested;
  with_columns engine df exprs.

(** ** The examples of the specification *)

Definition sex_codebook_str : DataFrame :=
  [ ("column_name", [VStr "sex"; VStr "sex"]);
    ("old_values", [VStr "1"; VStr "2"]);
    ("new_labels", [VStr "Male"; VStr "Female"]) ].

Definition sex_codebook_int : DataFrame :=
  [ ("column_name", [VStr "sex"; VStr "sex"]);
    ("old_values", [VInt 1; VInt 2]);
    ("new_labels", [VStr "Male"; VStr "Female"]) ].

Definition sex_data : DataFrame := [ ("sex", [VInt 1; VInt 2; VInt 1]) ].

Definition grp_codebook : DataFrame :=
  [ ("column_name", [VStr "grp"; VStr "grp"]);
    ("old_values", [VStr "A"; VStr "A"]);
    ("new_labels", [VStr "X"; VStr "Y"]) ].

(** ** Notions used to state the properties *)

(** The rows of a codebook table read off its three columns: the tuples
    (column name, (old value, new value)) in row order. *)
Definition codebook_rows (ks os ns : list value) : list (value * (value * value)) :=
  zip ks (zip os ns).

(** The codebook, group by group: one entry per group key, holding the
    dictionary of the old and new cells of the rows of that group. *)
Definition compiled (ks os ns : list value) : Codebook :=
  (fun g => (g, dict_zip (take_group g ks os) (take_group g ks ns))) <$> group_keys ks.

(** An inner mapping is injective when no two of its entries share a new
    value. *)
Definition injective (m : list (value * value)) : Prop := NoDup (snd <$> m).

(** The exact inverse mapping, new value to old value:
    [{new: old for old, new in m.items()}]. *)
Definition invert (m : list (value * value)) : list (value * value) :=
  Dict.of_pairs ((fun p => (p.2, p.1)) <$> m).

Definition invert_codebook (nested : Codebook) : Codebook :=
  (fun e => (e.1, invert e.2)) <$> nested.

(** No cell of a recoded column holds a new value of its mapping without
    being one of its keys. *)
Definition no_collision (df : DataFrame) (nested : Codebook) : Prop :=
  forall c cells m v,
    (c, cells) ∈ df -> Dict.get nested (VStr c) = Some m -> v ∈ cells ->
    Dict.get m v = None -> v ∉ snd <$> m.

(** An outer key names a column of the frame. *)
Definition names_column (df : DataFrame) (k : value) : Prop :=
  match k with
  | VStr c => c ∈ column_names df
  | VInt _ => False
  end.

#[global] Instance names_column_dec df k : Decision (names_column df k).
Proof. destruct k; simpl; apply _. Defined.

Definition keys_in_frame (df : DataFrame) (nested : Codebook) : Prop :=
  Forall (names_column df) (Dict.keys nested).

(** The shape of a frame: its column names, in order, each with the
    number of its rows. *)
Definition shape (df : DataFrame) : list (string * nat) :=
  (fun c => (c.1, length c.2)) <$> df.

(** [df'] is [df] recoded as far as the frame conditions go: the same
    shape, the columns that are no outer key untouched, and in a column
    that is an outer key the cells that are no key of its mapping
    untouched, row by row. *)
Definition frame_preserved (df : DataFrame) (nested : Codebook) (df' : DataFrame) : Prop :=
  shape df' = shape df
  /\ (forall c, VStr c ∉ Dict.keys nested -> Dict.get df' c = Dict.get df c)
  /\ (forall c m cells,
        Dict.get nested (VStr c) = Some m -> Dict.get df c = Some cells ->
        exists cells',
          Dict.get df' c = Some cells'
          /\ length cells' = length cells
          /\ forall i v, cells !! i = Some v -> Dict.get m v = None -> cells' !! i = Some v).

(** The column that the expression built for the outer key [k] yields
    on [df]. *)
Definition recoded_column (df : DataFrame) (nested : Codebook)
    (k : value) (col : string * list value) : Prop :=
  exists s m cells,
    k = VStr s /\ Dict.get nested k = Some m /\ Dict.get df s = Some cells
    /\ col = (s, replace m cells).


(** A codebook for the column "sex" of [sex_data] and for a column
    "age" that [sex_data] does not have. *)
Definition sex_age_codebook : Codebook :=
  [ (VStr "sex", [(VInt 1, VStr "Male"); (VInt 2, VStr "Female")]);
    (VStr "age", [(VInt 0, VStr "unknown")]) ].

(** A codebook with one key, "age", which is no column of [sex_data]. *)
Definition age_codebook : Codebook := [ (VStr "age", [(VInt 1, VInt 2)]) ].

(** An injective mapping whose new value also occurs in the data. *)
Definition swap_codebook : Codebook := [ (VStr "x", [(VInt 1, VInt 2)]) ].

Definition swap_data : DataFrame := [ ("x", [VInt 1; VInt 2]) ].

(** The table has the three fields of a codebook table. *)
Definition has_fields (df : DataFrame) (c o n : string) : Prop :=
  c ∈ column_names df /\ o ∈ column_names df /\ n ∈ column_names df.

(** A compile function fails with the missing-field error [err],
    carrying the name of a missing field, exactly when one of the three
    fields is absent. *)
Definition schema_error_iff_missing
    (compile : DataFrame -> string -> string -> string -> result Codebook)
    (err : string -> exn) (df : DataFrame) (c o n : string) : Prop :=
  ((exists f, compile df c o n = Raise (err f)) <-> ~ has_fields df c o n)
  /\ (forall f, compile df c o n = Raise (err f) ->
                f ∈ [c; o; n] /\ f ∉ column_names df).

(** A codebook table without rows that lacks the old-value and the
    new-value fields. *)
Definition header_only : DataFrame := [ ("column_name", []) ].

(** The column [c] and the mapping that the codebook holds for it, if
    it holds one, are of one data type. *)
Definition typed_column (nested : Codebook) (c : string * list value) : Prop :=
  match Dict.get nested (VStr c.1) with
  | Some m => one_dtype m c.2
  | None => True
  end.

#[global] Instance typed_column_dec nested c : Decision (typed_column nested c).
Proof. unfold typed_column. destruct (Dict.get nested (VStr c.1)); apply _. Defined.

(** Every column of the frame that the codebook recodes is of one data
    type with its mapping. *)
Definition typed_for (df : DataFrame) (nested : Codebook) : Prop :=
  Forall (typed_column nested) df.

#[global] Instance typed_for_dec df nested : Decision (typed_for df nested).
Proof. unfold typed_for. apply _. Defined.

(** One behaviour that polars may have where the source leaves it
    open: refusing. *)
Definition refuse : polars :=
  {| mixed_mapping := fun _ => Raise TypeError;
     cast_replace := fun _ _ => Raise InvalidOperationError |}.

(** A column of integers in which 1 occurs and 2 does not. *)
Definition round_data : DataFrame := [ ("x", [VInt 1; VInt 3; VInt 1]) ].

(** ** The script [src/main.py] *)

(** The pandas half of the script (lines 7 to 16), as a function of the
    two frames that [pd.read_csv] returned. *)
Definition main_pd (csv_codebook_pd data_pd : DataFrame) : result DataFrame :=
  nested_dict_pd ← create_dict_pd csv_codebook_pd "column_name" "old_values" "new_labels";
  Ok (recode_pd data_pd nested_dict_pd).

(** The polars half of the script (lines 20 to 46), as a function of the
    two frames that [pl.read_csv] returned. *)
Definition main_pl (engine : polars) (csv_codebook_pl data_pl : DataFrame)
  : result DataFrame :=
  nested_dict_pl ← create_dict_pl csv_codebook_pl "column_name" "old_values" "new_labels";
  recode_pl engine data_pl nested_dict_pl.

(** ** Notions used to state the further properties *)

(** No new value of a mapping is itself replaced by that mapping. *)
Definition settled (m : list (value * value)) : Prop :=
  forall k v, Dict.get m k = Some v -> replace_value m v = v.

(** A reference compile that reads the table one row at a time: the row
    [(k, (old, new))] assigns [new] to [old] in the inner mapping of [k],
    which is created when [k] is new. *)
Definition add_row (d : Codebook) (row : value * (value * value)) : Codebook :=
  Dict.set d row.1 (Dict.set (default [] (Dict.get d row.1)) row.2.1 row.2.2).

Definition compile_rows (rows : list (value * (value * value))) : Codebook :=
  fold_left add_row rows [].

(** The codebook of [compiled], read off the rows. *)
Definition compiled_of_rows (rows : list (value * (value * value))) : Codebook :=
  (fun g => (g, Dict.of_pairs (snd <$> filter (fun r => r.1 = g) rows)))
    <$> group_keys (fst <$> rows).

(** Two codebook columns that send 1 to 2 and 2 to 3. *)
Definition chain_mapping : list (value * value) := [ (VInt 1, VInt 2); (VInt 2, VInt 3) ].

(** A dataset with the columns "sex" and "grp". *)
Definition sex_grp_data : DataFrame :=
  [ ("sex", [VInt 1; VInt 2; VInt 1]); ("grp", [VStr "A"; VStr "B"; VStr "A"]) ].

(** A codebook table for both columns of [sex_grp_data]. *)
Definition sex_grp_codebook : DataFrame :=
  [ ("column_name", [VStr "sex"; VStr "grp"; VStr "sex"]);
    ("old_values", [VInt 1; VStr "A"; VInt 2]);
    ("new_labels", [VStr "Male"; VStr "X"; VStr "Female"]) ].

(** A dataset of two columns of strings, and a codebook table for it. *)
Definition grp_sex_data : DataFrame :=
  [ ("grp", [VStr "A"; VStr "B"; VStr "A"]); ("sex", [VStr "m"; VStr "f"; VStr "m"]) ].

Definition grp_sex_codebook : DataFrame :=
  [ ("column_name", [VStr "grp"; VStr "sex"; VStr "grp"]);
    ("old_values", [VStr "A"; VStr "m"; VStr "B"]);
    ("new_labels", [VStr "X"; VStr "Male"; VStr "Y"]) ].

(** [sex_codebook_int] with its columns in another order and a column
    of notes added. *)
Definition sex_codebook_notes : DataFrame :=
  [ ("note", [VStr "checked"; VStr "to do"]);
    ("new_labels", [VStr "Male"; VStr "Female"]);
    ("old_values", [VInt 1; VInt 2]);
    ("column_name", [VStr "sex"; VStr "sex"]) ].

(** ** Facts about dictionaries *)

Section dict_facts.
Context {K V : Type} `{EqDecision K}.
Implicit Types (d : list (K * V)) (k : K) (v : V).

Lemma get_set d k v k' :
  Dict.get (Dict.set d k v) k' = if decide (k = k') then Some v else Dict.get d k'.
Proof.
  induction d as [|[k0 v0] d IH]; simpl.
  - repeat case_decide; congruence.
  - destruct (decide (k0 = k)) as [->|Hne]; simpl.
    + repeat case_decide; congruence.
    + rewrite IH. repeat case_decide; congruence.
Qed.

Lemma get_None d k : Dict.get d k = None <-> k ∉ Dict.keys d.
Proof.
  unfold Dict.keys. induction d as [|[k0 v0] d IH]; simpl.
  - split; [intros _; apply not_elem_of_nil | done].
  - rewrite not_elem_of_cons. destruct (decide (k0 = k)) as [Heq|Hne].
    + split; [done | intros [Hne _]; done].
    + rewrite IH. split; [by intros Hk | by intros [_ Hk]].
Qed.

Lemma get_is_Some d k : is_Some (Dict.get d k) <-> k ∈ Dict.keys d.
Proof.
  rewrite <- not_eq_None_Some, get_None.
  destruct (decide (k ∈ Dict.keys d)); tauto.
Qed.

Lemma get_Some_elem d k v : Dict.get d k = Some v -> (k, v) ∈ d.
Proof.
  induction d as [|[k0 v0] d IH]; simpl; [done|].
  case_decide; intros Hg.
  - simplify_eq. apply list_elem_of_here.
  - apply list_elem_of_further; auto.
Qed.

Lemma elem_get_NoDup d k v : NoDup (Dict.keys d) -> (k, v) ∈ d -> Dict.get d k = Some v.
Proof.
  unfold Dict.keys. induction d as [|[k0 v0] d IH]; simpl; intros Hnd Hin.
  - by apply elem_of_nil in Hin.
  - apply NoDup_cons in Hnd as [Hk0 Hnd]. apply elem_of_cons in Hin as [Heq|Hin].
    + simplify_eq. by rewrite decide_True.
    + rewrite decide_False; [auto|]. intros ->. apply Hk0.
      apply list_elem_of_fmap. by exists (k, v).
Qed.


Lemma set_fresh d k v : k ∉ Dict.keys d -> Dict.set d k v = d ++ [(k, v)].
Proof.
  unfold Dict.keys. induction d as [|[k0 v0] d IH]; simpl; intros Hin; [done|].
  apply not_elem_of_cons in Hin as [Hne Hin].
  rewrite decide_False by done. by rewrite IH.
Qed.


(** A run of assignments [d[k] = v]: the last assignment to a key is the
    one that is read back. *)
Lemma get_fold_set (ps : list (K * V)) d k :
  Dict.get (fold_left (fun d p => Dict.set d p.1 p.2) ps d) k
  = match Dict.get (reverse ps) k with
    | Some v => Some v
    | None => Dict.get d k
    end.
Proof.
  revert d. induction ps as [|[k0 v0] ps IH]; intros d; simpl; [done|].
  rewrite IH, reverse_cons, get_set. simpl.
  clear IH. induction (reverse ps) as [|[k1 v1] l IHl]; simpl.
  - by destruct (decide (k0 = k)).
  - destruct (decide (k1 = k)); [done | apply IHl].
Qed.


Lemma get_app_last (p1 p2 : list (K * V)) k v :
  k ∉ Dict.keys p2 -> Dict.get (reverse (p1 ++ (k, v) :: p2)) k = Some v.
Proof.
  intros Hk. rewrite reverse_app, reverse_cons, <- app_assoc. simpl.
  assert (Hr : k ∉ Dict.keys (reverse p2)).
  { unfold Dict.keys in *. rewrite list_elem_of_fmap in *.
    intros (x & ? & Hx). apply Hk. exists x. split; [done|]. by apply elem_of_reverse. }
  revert Hr. generalize (reverse p2). intros l Hr.
  induction l as [|[k1 v1] l IHl]; simpl.
  - by rewrite decide_True.
  - unfold Dict.keys in Hr. simpl in Hr. apply not_elem_of_cons in Hr as [Hne Hr].
    rewrite decide_False by done. by apply IHl.
Qed.

(** [dict(pairs)] reads back, for a key, the value of its last pair. *)
Lemma of_pairs_last (p1 p2 : list (K * V)) k v :
  k ∉ Dict.keys p2 -> Dict.get (Dict.of_pairs (p1 ++ (k, v) :: p2)) k = Some v.
Proof.
  intros Hk. unfold Dict.of_pairs. rewrite get_fold_set.
  by rewrite get_app_last.
Qed.

Lemma of_pairs_elem (ps : list (K * V)) k v :
  Dict.get (Dict.of_pairs ps) k = Some v -> (k, v) ∈ ps.
Proof.
  unfold Dict.of_pairs. rewrite get_fold_set. simpl.
  destruct (Dict.get (reverse ps) k) as [v'|] eqn:Hg; [|done].
  intros [= ->]. apply get_Some_elem in Hg. by apply elem_of_reverse.
Qed.

Lemma dict_ext d1 d2 :
  NoDup (Dict.keys d1) -> Dict.keys d1 = Dict.keys d2 ->
  (forall k, Dict.get d1 k = Dict.get d2 k) -> d1 = d2.
Proof.
  unfold Dict.keys. revert d2.
  induction d1 as [|[k1 v1] d1 IH]; intros [|[k2 v2] d2]; simpl; try done.
  intros Hnd [= <- Hk] Hg. apply NoDup_cons in Hnd as [Hk1 Hnd].
  pose proof (Hg k1) as H1. simpl in H1. rewrite !decide_True in H1 by done.
  simplify_eq. f_equal. apply IH; [done..|].
  intros k. specialize (Hg k). simpl in Hg.
  destruct (decide (k1 = k)) as [<-|]; [|done].
  transitivity (@None V); [|symmetry]; apply get_None;
    [exact Hk1 | intros Hin; apply Hk1; by rewrite Hk].
Qed.

End dict_facts.

(** ** Facts about grouping *)

Lemma elem_of_group_keys_from seen ks k :
  k ∈ group_keys_from seen ks <-> k ∈ ks /\ k ∉ seen.
Proof.
  revert seen. induction ks as [|k0 ks IH]; intros seen; simpl.
  - rewrite elem_of_nil. tauto.
  - destruct (decide (k0 ∈ seen)) as [Hin|Hin].
    + rewrite IH, elem_of_cons. split; [tauto|].
      intros [[->|?] ?]; tauto.
    + rewrite !elem_of_cons, IH, not_elem_of_cons.
      destruct (decide (k = k0)) as [->|]; tauto.
Qed.

Lemma elem_of_group_keys ks k : k ∈ group_keys ks <-> k ∈ ks.
Proof.
  unfold group_keys. rewrite elem_of_group_keys_from.
  pose proof (not_elem_of_nil k). tauto.
Qed.

Lemma NoDup_group_keys_from seen ks : NoDup (group_keys_from seen ks).
Proof.
  revert seen. induction ks as [|k0 ks IH]; intros seen; simpl; [constructor|].
  destruct (decide (k0 ∈ seen)); [apply IH|].
  apply NoDup_cons. split; [|apply IH].
  rewrite elem_of_group_keys_from. intros [_ Hn]. apply Hn, list_elem_of_here.
Qed.

Lemma NoDup_group_keys ks : NoDup (group_keys ks).
Proof. apply NoDup_group_keys_from. Qed.

(** Keys come out in the order of their first appearance: a key that
    comes out earlier has an occurrence before every occurrence of a key
    that comes out later. *)
Lemma group_keys_from_order seen ks i j k1 k2 :
  group_keys_from seen ks !! i = Some k1 ->
  group_keys_from seen ks !! j = Some k2 ->
  (i < j)%nat ->
  exists a, ks !! a = Some k1 /\ forall b, ks !! b = Some k2 -> (a < b)%nat.
Proof.
  revert seen i j. induction ks as [|k0 ks IH]; intros seen i j Hi Hj Hlt; simpl in *.
  { by rewrite lookup_nil in Hi. }
  assert (Hk2 : k2 ∈ group_keys_from seen (k0 :: ks))
    by (apply list_elem_of_lookup; exists j; exact Hj).
  destruct (decide (k0 ∈ seen)) as [Hin|Hin].
  - destruct (IH _ _ _ Hi Hj Hlt) as (a & Ha & Hb).
    exists (S a). split; [done|]. intros [|b] Hb'; simpl in Hb'.
    + simplify_eq. simpl in Hk2. rewrite decide_True in Hk2 by done.
      apply elem_of_group_keys_from in Hk2. tauto.
    + apply Hb in Hb'. lia.
  - destruct i as [|i]; simpl in Hi.
    + simplify_eq. exists 0%nat. split; [done|].
      intros [|b] Hb'; [|lia]. simpl in Hb'. simplify_eq.
      destruct j as [|j]; [lia|]. simpl in Hj.
      apply list_elem_of_lookup_2, elem_of_group_keys_from in Hj.
      exfalso. apply Hj, list_elem_of_here.
    + destruct j as [|j]; [lia|]. simpl in Hj.
      destruct (IH _ _ _ Hi Hj ltac:(lia)) as (a & Ha & Hb).
      exists (S a). split; [done|]. intros [|b] Hb'; simpl in Hb'.
      * simplify_eq.
        apply list_elem_of_lookup_2, elem_of_group_keys_from in Hj.
        exfalso. apply Hj, list_elem_of_here.
      * apply Hb in Hb'. lia.
Qed.

Lemma zip_nil_r {A B : Type} (l : list A) : zip l (@nil B) = [].
Proof. by destruct l. Qed.

Lemma take_group_nil {A : Type} g ks : take_group g ks (@nil A) = [].
Proof. unfold take_group. by rewrite zip_nil_r. Qed.

Lemma take_group_cons {A : Type} g k ks (x : A) xs :
  take_group g (k :: ks) (x :: xs)
  = if decide (k = g) then x :: take_group g ks xs else take_group g ks xs.
Proof.
  unfold take_group. simpl. rewrite filter_cons. simpl.
  by destruct (decide (k = g)).
Qed.

(** Pairing the two cell lists of a group pairs the cells row by row. *)
Lemma take_group_zip g ks (os ns : list value) :
  zip (take_group g ks os) (take_group g ks ns) = take_group g ks (zip os ns).
Proof.
  revert os ns. induction ks as [|k ks IH]; intros os ns; [done|].
  destruct os as [|o os]; [by rewrite !take_group_nil|].
  destruct ns as [|n ns]; [by rewrite !take_group_nil, zip_nil_r|].
  simpl. rewrite !take_group_cons. destruct (decide (k = g)); simpl; by rewrite IH.
Qed.


(** ** The two compile functions compute the same codebook *)

Lemma get_fmap_column {K A B : Type} `{EqDecision K} (F : A -> B)
    (df : list (K * A)) name :
  Dict.get ((fun c => (c.1, F c.2)) <$> df) name = F <$> Dict.get df name.
Proof.
  induction df as [|[c cells] df IH]; simpl; [done|].
  destruct (decide (c = name)); [done | apply IH].
Qed.

Lemma get_fmap_pair {K V : Type} `{EqDecision K} (F : K -> V) (l : list K) k :
  Dict.get ((fun g => (g, F g)) <$> l) k = if decide (k ∈ l) then Some (F k) else None.
Proof.
  induction l as [|g l IH].
  - destruct (decide (k ∈ [])) as [Hin|]; [by apply elem_of_nil in Hin | done].
  - rewrite fmap_cons. cbn [Dict.get]. rewrite IH.
    destruct (decide (k ∈ g :: l)) as [Hin'|Hin'], (decide (k ∈ l)) as [Hin|Hin],
      (decide (g = k)) as [Heq|Hne]; try (by subst).
    + apply elem_of_cons in Hin' as [->|]; done.
    + exfalso. by apply Hin', list_elem_of_further.
    + exfalso. by apply Hin', list_elem_of_further.
    + exfalso. subst g. apply Hin', list_elem_of_here.
Qed.

(** Assigning distinct fresh keys one after the other appends them. *)
Lemma fold_set_fresh {K V : Type} `{EqDecision K} (F : K -> V) (l : list K) (d : list (K * V)) :
  NoDup l -> (forall k, k ∈ l -> k ∉ Dict.keys d) ->
  fold_left (fun d g => Dict.set d g (F g)) l d = d ++ ((fun g => (g, F g)) <$> l).
Proof.
  revert d. induction l as [|g l IH]; intros d Hnd Hfresh; simpl.
  - by rewrite app_nil_r.
  - apply NoDup_cons in Hnd as [Hg Hnd].
    rewrite set_fresh by (apply Hfresh, list_elem_of_here).
    rewrite IH; [by rewrite <- app_assoc | done |].
    intros k Hk. unfold Dict.keys. rewrite fmap_app, elem_of_app. simpl.
    intros [Hin|Hin].
    + eapply Hfresh; [by apply list_elem_of_further | exact Hin].
    + apply list_elem_of_singleton in Hin. congruence.
Qed.

Lemma nested_of_rows_groups ks os ns (l : list value) (d : Codebook) :
  fold_left (fun d row => Dict.set d (key row) (dict_zip (olds row) (news row)))
    ((fun g => {| key := g; olds := take_group g ks os; news := take_group g ks ns |}) <$> l) d
  = fold_left (fun d g => Dict.set d g (dict_zip (take_group g ks os) (take_group g ks ns))) l d.
Proof. revert d. induction l as [|g l IH]; intros d; simpl; [done | apply IH]. Qed.

Lemma create_dict_pd_loop_groups (df : DataFrame) ks os ns o n (l : list value) (d : Codebook) :
  Dict.get df o = Some os -> Dict.get df n = Some ns ->
  create_dict_pd_loop
    ((fun g => (g, (fun c => (c.1, take_group g ks c.2)) <$> df)) <$> l) o n d
  = Ok (fold_left (fun d g => Dict.set d g (dict_zip (take_group g ks os) (take_group g ks ns))) l d).
Proof.
  intros Ho Hn. revert d. induction l as [|g l IH]; intros d; simpl; [done|].
  unfold getitem_pd. rewrite !get_fmap_column, Ho, Hn. simpl. apply IH.
Qed.

Lemma fold_groups_compiled ks os ns :
  fold_left (fun d g => Dict.set d g (dict_zip (take_group g ks os) (take_group g ks ns)))
    (group_keys ks) [] = compiled ks os ns.
Proof.
  rewrite (fold_set_fresh (fun g => dict_zip (take_group g ks os) (take_group g ks ns))).
  - done.
  - apply NoDup_group_keys.
  - intros k _. apply not_elem_of_nil.
Qed.

Lemma create_dict_pl_compiled (df : DataFrame) c o n ks os ns :
  Dict.get df c = Some ks -> Dict.get df o = Some os -> Dict.get df n = Some ns ->
  c <> o -> c <> n -> o <> n ->
  create_dict_pl df c o n = Ok (compiled ks os ns).
Proof.
  intros Hc Ho Hn Hco Hcn Hon.
  unfold create_dict_pl, group_by_agg, col. rewrite Hc, Ho, Hn. simpl.
  rewrite decide_False by congruence.
  rewrite decide_False by (intros [?|?]; congruence).
  simpl. unfold nested_of_rows.
  by rewrite nested_of_rows_groups, fold_groups_compiled.
Qed.

Lemma create_dict_pd_compiled (df : DataFrame) c o n ks os ns :
  Dict.get df c = Some ks -> Dict.get df o = Some os -> Dict.get df n = Some ns ->
  create_dict_pd df c o n = Ok (compiled ks os ns).
Proof.
  intros Hc Ho Hn.
  unfold create_dict_pd, groupby, getitem_pd. rewrite Hc. simpl.
  by rewrite (create_dict_pd_loop_groups df ks os ns), fold_groups_compiled.
Qed.

(** ** What the compiled codebook holds *)

Lemma keys_compiled ks os ns : Dict.keys (compiled ks os ns) = group_keys ks.
Proof.
  unfold compiled, Dict.keys. rewrite <- list_fmap_compose.
  apply list_fmap_id.
Qed.

Lemma get_compiled ks os ns k :
  k ∈ ks ->
  Dict.get (compiled ks os ns) k
  = Some (Dict.of_pairs (snd <$> filter (fun r => r.1 = k) (codebook_rows ks os ns))).
Proof.
  intros Hk. unfold compiled.
  rewrite (get_fmap_pair (fun g => dict_zip (take_group g ks os) (take_group g ks ns))).
  rewrite decide_True by (by apply elem_of_group_keys).
  unfold dict_zip. by rewrite take_group_zip.
Qed.

Lemma codebook_rows_lookup ks os ns i k o n :
  codebook_rows ks os ns !! i = Some (k, (o, n)) <->
  ks !! i = Some k /\ os !! i = Some o /\ ns !! i = Some n.
Proof.
  unfold codebook_rows. rewrite lookup_zip_with_Some. split.
  - intros (x & [y z] & [= -> -> ->] & Hk & Hz).
    apply lookup_zip_with_Some in Hz as (? & ? & [= -> ->] & ? & ?). done.
  - intros (Hk & Ho & Hn). exists k, (o, n). split_and!; [done..|].
    apply lookup_zip_with_Some. by exists o, n.
Qed.

Lemma codebook_rows_length (df : DataFrame) c o n ks os ns :
  rectangular df ->
  Dict.get df c = Some ks -> Dict.get df o = Some os -> Dict.get df n = Some ns ->
  length ks = height df /\ length os = height df /\ length ns = height df
  /\ length (codebook_rows ks os ns) = height df.
Proof.
  intros Hrect Hc Ho Hn. unfold rectangular in Hrect. rewrite Forall_forall in Hrect.
  apply get_Some_elem, Hrect in Hc. apply get_Some_elem, Hrect in Ho.
  apply get_Some_elem, Hrect in Hn. simpl in *.
  unfold codebook_rows. rewrite !length_zip_with. lia.
Qed.

(** Among the rows at or after a row that satisfies [P] there is a last
    one that does. *)
Lemma last_occurrence {A : Type} (P : A -> Prop) `{!forall x, Decision (P x)}
    (l : list A) i x :
  l !! i = Some x -> P x ->
  exists j y, (i <= j)%nat /\ l !! j = Some y /\ P y
              /\ forall j' y', (j < j')%nat -> l !! j' = Some y' -> ~ P y'.
Proof.
  revert i x. induction l as [|a l IH]; intros i x Hi HP; [by rewrite lookup_nil in Hi|].
  destruct i as [|i]; simpl in Hi.
  - simplify_eq. destruct (decide (Exists P l)) as [Hex|Hnex].
    + apply Exists_exists in Hex as (y & Hy & HPy).
      apply list_elem_of_lookup in Hy as [i0 Hi0].
      destruct (IH _ _ Hi0 HPy) as (j & z & _ & Hj & HPz & Hlast).
      exists (S j), z. split_and!; [lia | done | done |].
      intros [|j'] y' Hlt; [lia|]. simpl. apply Hlast. lia.
    + exists 0%nat, x. split_and!; [lia | done | done |].
      intros [|j'] y' Hlt Hy' HPy'; [lia|]. simpl in Hy'.
      apply Hnex, Exists_exists. exists y'. split; [|done].
      by eapply list_elem_of_lookup_2.
  - destruct (IH _ _ Hi HP) as (j & z & Hle & Hj & HPz & Hlast).
    exists (S j), z. split_and!; [lia | done | done |].
    intros [|j'] y' Hlt; [lia|]. simpl. apply Hlast. lia.
Qed.

(** The entry read back for an old value is the new value of the last
    row of the group that carries this old value. *)
Lemma compiled_last_wins ks os ns j k o n :
  codebook_rows ks os ns !! j = Some (k, (o, n)) ->
  (forall j' n', (j < j')%nat -> codebook_rows ks os ns !! j' <> Some (k, (o, n'))) ->
  exists m, Dict.get (compiled ks os ns) k = Some m /\ Dict.get m o = Some n.
Proof.
  intros Hj Hlast.
  assert (Hk : k ∈ ks).
  { apply codebook_rows_lookup in Hj as (Hk & _). by eapply list_elem_of_lookup_2. }
  eexists. split; [by apply get_compiled|].
  rewrite <- (take_drop_middle _ _ _ Hj).
  rewrite filter_app, filter_cons, decide_True by done.
  rewrite fmap_app, fmap_cons. simpl. apply of_pairs_last.
  unfold Dict.keys. rewrite <- list_fmap_compose.
  intros Hin. apply list_elem_of_fmap in Hin as ([k' [o' n']] & Heq & Hin).
  simpl in Heq. subst o'.
  apply list_elem_of_filter in Hin as [Hk' Hin]. simpl in Hk'. subst k'.
  apply list_elem_of_lookup in Hin as [i Hi]. rewrite lookup_drop in Hi.
  eapply (Hlast (S j + i)%nat); [lia | exact Hi].
Qed.

Lemma compiled_entry_row ks os ns k m o n :
  Dict.get (compiled ks os ns) k = Some m -> Dict.get m o = Some n ->
  (k, (o, n)) ∈ codebook_rows ks os ns.
Proof.
  intros Hm Ho.
  assert (Hk : k ∈ ks).
  { apply elem_of_group_keys. rewrite <- (keys_compiled ks os ns).
    apply get_is_Some. by eexists. }
  rewrite get_compiled in Hm by done. simplify_eq.
  apply of_pairs_elem, list_elem_of_fmap in Ho as ([k' p] & Heq & Hin).
  simpl in Heq. subst p. apply list_elem_of_filter in Hin as [Hk' Hin].
  simpl in Hk'. by subst k'.
Qed.

(** ** Properties of compile *)

(** C1.  For a codebook table with its three fields, [create_dict_pd]
    returns a nested dictionary, and [create_dict_pl] returns the same
    one (polars wants the three field names distinct).  Its outer keys
    are the distinct cells of the column-name field: no key twice, a key
    for every cell of that field and no other key, in the order of first
    appearance (a key that comes earlier has an occurrence in the field
    before every occurrence of a key that comes later).  Every row
    [(k, old, new)] of the table finds its group [k] in the result, and
    [old] is mapped there to the new value of the last row of the table
    with this [k] and [old]; every entry of an inner mapping comes from a
    row of its group.  For a rectangular table the rows are all its
    [height] rows. *)
Theorem compile_groups_rows (df : DataFrame) (c o n : string) (ks os ns : list value) :
  Dict.get df c = Some ks -> Dict.get df o = Some os -> Dict.get df n = Some ns ->
  exists d,
    create_dict_pd df c o n = Ok d
    /\ (c <> o -> c <> n -> o <> n -> create_dict_pl df c o n = Ok d)
    /\ NoDup (Dict.keys d)
    /\ (forall k, k ∈ Dict.keys d <-> k ∈ ks)
    /\ (forall i j k1 k2,
          Dict.keys d !! i = Some k1 -> Dict.keys d !! j = Some k2 -> (i < j)%nat ->
          exists a, ks !! a = Some k1 /\ forall b, ks !! b = Some k2 -> (a < b)%nat)
    /\ (forall i k old new,
          codebook_rows ks os ns !! i = Some (k, (old, new)) ->
          exists m j new',
            Dict.get d k = Some m
            /\ (i <= j)%nat
            /\ codebook_rows ks os ns !! j = Some (k, (old, new'))
            /\ (forall j' x, (j < j')%nat ->
                  codebook_rows ks os ns !! j' <> Some (k, (old, x)))
            /\ Dict.get m old = Some new')
    /\ (forall k m old new,
          Dict.get d k = Some m -> Dict.get m old = Some new ->
          (k, (old, new)) ∈ codebook_rows ks os ns)
    /\ (rectangular df -> length (codebook_rows ks os ns) = height df).
Proof.
  intros Hc Ho Hn. exists (compiled ks os ns).
  split; [by apply create_dict_pd_compiled|].
  split; [intros; by apply create_dict_pl_compiled|].
  rewrite keys_compiled.
  split; [apply NoDup_group_keys|].
  split; [apply elem_of_group_keys|].
  split; [apply group_keys_from_order|].
  split; [|split; [apply compiled_entry_row|]].
  - intros i k old new Hi.
    destruct (last_occurrence (fun r => r.1 = k /\ r.2.1 = old) _ _ _ Hi)
      as (j & [k' [old' new']] & Hle & Hj & [Hk' Ho'] & Hlast); [done|].
    simpl in Hk', Ho'. subst k' old'.
    assert (Hlast' : forall j' x, (j < j')%nat ->
               codebook_rows ks os ns !! j' <> Some (k, (old, x))).
    { intros j' x Hlt Hj'. by apply (Hlast j' _ Hlt Hj'). }
    destruct (compiled_last_wins _ _ _ _ _ _ _ Hj Hlast') as (m & Hm & Hold).
    by exists m, j, new'.
  - intros Hrect. by eapply codebook_rows_length.
Qed.

Lemma compile_groups_rows_witness :
  exists d,
    create_dict_pd sex_codebook_int "column_name" "old_values" "new_labels" = Ok d
    /\ Dict.keys d = [VStr "sex"].
Proof.
  destruct (compile_groups_rows sex_codebook_int "column_name" "old_values" "new_labels"
              [VStr "sex"; VStr "sex"] [VInt 1; VInt 2] [VStr "Male"; VStr "Female"]
              eq_refl eq_refl eq_refl) as (d & Hd & _).
  exists d. split; [exact Hd|].
  vm_compute in Hd. injection Hd as <-. reflexivity.
Defined.

(** C3.  When an old value occurs on several rows of one group, the
    compiled inner mapping of the group sends it to the new value of the
    last of these rows; the rows [("grp","A","X"), ("grp","A","Y")]
    compile to a mapping for "grp" that sends "A" to "Y". *)
Theorem last_duplicate_wins (df : DataFrame) (c o n : string) (ks os ns : list value)
    (i j : nat) (k old new_i new_j : value) :
  Dict.get df c = Some ks -> Dict.get df o = Some os -> Dict.get df n = Some ns ->
  codebook_rows ks os ns !! i = Some (k, (old, new_i)) ->
  codebook_rows ks os ns !! j = Some (k, (old, new_j)) ->
  (i < j)%nat ->
  (forall j' x, (j < j')%nat -> codebook_rows ks os ns !! j' <> Some (k, (old, x))) ->
  (exists d m,
     create_dict_pd df c o n = Ok d
     /\ (c <> o -> c <> n -> o <> n -> create_dict_pl df c o n = Ok d)
     /\ Dict.get d k = Some m
     /\ Dict.get m old = Some new_j)
  /\ create_dict_pl grp_codebook "column_name" "old_values" "new_labels"
     = Ok [(VStr "grp", [(VStr "A", VStr "Y")])]
  /\ create_dict_pd grp_codebook "column_name" "old_values" "new_labels"
     = Ok [(VStr "grp", [(VStr "A", VStr "Y")])].
Proof.
  intros Hc Ho Hn Hi Hj Hlt Hlast. split; [|split; reflexivity].
  destruct (compiled_last_wins _ _ _ _ _ _ _ Hj Hlast) as (m & Hm & Hold).
  exists (compiled ks os ns), m.
  split; [by apply create_dict_pd_compiled|].
  split; [intros; by apply create_dict_pl_compiled|]. done.
Qed.

Lemma last_duplicate_wins_witness :
  exists d m,
    create_dict_pd grp_codebook "column_name" "old_values" "new_labels" = Ok d
    /\ Dict.get d (VStr "grp") = Some m
    /\ Dict.get m (VStr "A") = Some (VStr "Y").
Proof.
  assert (Hlast : forall j' x, (1 < j')%nat ->
            codebook_rows [VStr "grp"; VStr "grp"] [VStr "A"; VStr "A"]
              [VStr "X"; VStr "Y"] !! j' <> Some (VStr "grp", (VStr "A", x))).
  { intros [|[|[|j']]] x Hlt; [lia | lia | discriminate | discriminate]. }
  destruct (last_duplicate_wins grp_codebook "column_name" "old_values" "new_labels"
              [VStr "grp"; VStr "grp"] [VStr "A"; VStr "A"] [VStr "X"; VStr "Y"]
              0 1 (VStr "grp") (VStr "A") (VStr "X") (VStr "Y")
              eq_refl eq_refl eq_refl eq_refl eq_refl ltac:(lia) Hlast)
    as ((d & m & Hd & _ & Hm & Hold) & _).
  exists d, m. done.
Defined.

(** C10.  On a codebook table (the three fields present, under three
    distinct names) [create_dict_pd] and [create_dict_pl] both return,
    and return the same nested dictionary: the same outer keys in the
    same order with the same inner mappings. *)
Theorem create_dict_pd_pl_agree (df : DataFrame) (c o n : string) (ks os ns : list value) :
  Dict.get df c = Some ks -> Dict.get df o = Some os -> Dict.get df n = Some ns ->
  c <> o -> c <> n -> o <> n ->
  exists d, create_dict_pl df c o n = Ok d /\ create_dict_pd df c o n = Ok d.
Proof.
  intros Hc Ho Hn Hco Hcn Hon. exists (compiled ks os ns).
  split; [by apply create_dict_pl_compiled | by apply create_dict_pd_compiled].
Qed.

Lemma create_dict_pd_pl_agree_witness :
  exists d,
    create_dict_pl sex_codebook_str "column_name" "old_values" "new_labels" = Ok d
    /\ create_dict_pd sex_codebook_str "column_name" "old_values" "new_labels" = Ok d.
Proof.
  apply (create_dict_pd_pl_agree sex_codebook_str "column_name" "old_values" "new_labels"
           [VStr "sex"; VStr "sex"] [VStr "1"; VStr "2"] [VStr "Male"; VStr "Female"]);
    [reflexivity | reflexivity | reflexivity | discriminate | discriminate | discriminate].
Defined.

Lemma create_dict_pl_cases (df : DataFrame) (c o n : string) :
  match Dict.get df c, Dict.get df o, Dict.get df n with
  | None, _, _ => create_dict_pl df c o n = Raise (ColumnNotFoundError c)
  | Some _, None, _ => create_dict_pl df c o n = Raise (ColumnNotFoundError o)
  | Some _, Some _, None => create_dict_pl df c o n = Raise (ColumnNotFoundError n)
  | Some ks, Some os, Some ns =>
      create_dict_pl df c o n = Ok (compiled ks os ns)
      \/ exists f, create_dict_pl df c o n = Raise (DuplicateError f)
  end.
Proof.
  destruct (Dict.get df c) as [ks|] eqn:Hc, (Dict.get df o) as [os|] eqn:Ho,
    (Dict.get df n) as [ns|] eqn:Hn;
    try (unfold create_dict_pl, group_by_agg, col; rewrite ?Hc, ?Ho, ?Hn; reflexivity).
  destruct (decide (c <> o /\ c <> n /\ o <> n)) as [(? & ? & ?)|Hdup].
  - left. by apply create_dict_pl_compiled.
  - right. unfold create_dict_pl, group_by_agg, col. rewrite Hc, Ho, Hn. simpl.
    destruct (decide (o = c)); simpl; [by eexists|].
    destruct (decide (n = c \/ n = o)) as [|Hno]; simpl; [by eexists|].
    exfalso. apply Hdup. split_and!; intros ->; tauto.
Qed.

Lemma group_keys_cons k ks : exists l, group_keys (k :: ks) = k :: l.
Proof.
  unfold group_keys. simpl. by eexists.
Qed.

Lemma groupby_Some (df : DataFrame) (c : string) ks :
  Dict.get df c = Some ks ->
  groupby df c
  = Ok ((fun g => (g, (fun c => (c.1, take_group g ks c.2)) <$> df)) <$> group_keys ks).
Proof. intros Hc. unfold groupby, getitem_pd. by rewrite Hc. Qed.

Lemma create_dict_pd_cases (df : DataFrame) (c o n : string) :
  match Dict.get df c with
  | None => create_dict_pd df c o n = Raise (KeyError c)
  | Some [] => create_dict_pd df c o n = Ok []
  | Some ks =>
      match Dict.get df o, Dict.get df n with
      | None, _ => create_dict_pd df c o n = Raise (KeyError o)
      | Some _, None => create_dict_pd df c o n = Raise (KeyError n)
      | Some os, Some ns => create_dict_pd df c o n = Ok (compiled ks os ns)
      end
  end.
Proof.
  destruct (Dict.get df c) as [[|k ks]|] eqn:Hc;
    try (unfold create_dict_pd, groupby, getitem_pd; rewrite Hc; reflexivity).
  destruct (Dict.get df o) as [os|] eqn:Ho, (Dict.get df n) as [ns|] eqn:Hn;
    try (by apply create_dict_pd_compiled).
  all: unfold create_dict_pd; rewrite (groupby_Some _ _ _ Hc);
    destruct (group_keys_cons k ks) as [l ->]; simpl;
    unfold getitem_pd; rewrite !get_fmap_column, ?Ho, ?Hn; reflexivity.
Qed.

Lemma get_column_names (df : DataFrame) name :
  (Dict.get df name = None <-> name ∉ column_names df)
  /\ (is_Some (Dict.get df name) <-> name ∈ column_names df).
Proof. split; [apply get_None | apply get_is_Some]. Qed.

(** X11.  When the compile functions fail for a missing field.  No
    schema check is written in the source; the missing-field error is
    the one of the engine, [ColumnNotFoundError] in polars and
    [KeyError] in pandas, and both carry the name of a field that is
    absent.  [create_dict_pl] raises it exactly when one of the three
    fields is absent.  [create_dict_pd] raises it exactly when the
    column-name field is absent, or the table has a row and the
    old-value or new-value field is absent; with the three fields present
    neither function raises it. *)
Theorem missing_field_errors (df : DataFrame) (c o n : string) :
  schema_error_iff_missing create_dict_pl ColumnNotFoundError df c o n
  /\ ((exists f, create_dict_pd df c o n = Raise (KeyError f))
      <-> c ∉ column_names df
          \/ ((exists k ks, Dict.get df c = Some (k :: ks))
              /\ (o ∉ column_names df \/ n ∉ column_names df)))
  /\ (forall f, create_dict_pd df c o n = Raise (KeyError f) ->
                f ∈ [c; o; n] /\ f ∉ column_names df).
Proof.
  pose proof (create_dict_pl_cases df c o n) as Hpl.
  pose proof (create_dict_pd_cases df c o n) as Hpd.
  destruct (get_column_names df c) as [Hc0 Hc1], (get_column_names df o) as [Ho0 Ho1],
    (get_column_names df n) as [Hn0 Hn1].
  assert (Hin : forall f : string, f = c \/ f = o \/ f = n -> f ∈ [c; o; n]).
  { intros f. rewrite !elem_of_cons. tauto. }
  unfold schema_error_iff_missing, has_fields.
  destruct (Dict.get df c) as [ks|] eqn:Hc, (Dict.get df o) as [os|] eqn:Ho,
    (Dict.get df n) as [ns|] eqn:Hn.
  all: try (destruct ks as [|k ks]).
  all: rewrite ?Hpl, ?Hpd.
  all: split_and!.
  all: try (intros f [= <-]; split; [apply Hin; tauto | tauto]).
  all: try (intros f Hf; exfalso; destruct Hpl as [Hpl|[g Hpl]]; congruence).
  all: try done.
  all: split.
  all: try (intros _; tauto).
  all: try (intros [f Hf]; exfalso; first [discriminate Hf
        | destruct Hpl as [Hpl|[g Hpl]]; congruence]).
  all: try (intros _; by eexists).
  all: try (intros Hnot; exfalso; apply Hnot; split_and!;
            first [apply Hc1 | apply Ho1 | apply Hn1]; by eexists).
  all: try (intros [Hc'|[[k' [ks' Hk']] Hon]]; exfalso;
            [apply Hc0 in Hc'; discriminate
            | first [discriminate Hk' | destruct Hon as [Hx|Hx];
                [apply Ho0 in Hx | apply Hn0 in Hx]; discriminate]]).
  all: try (intros _; right; split; [by eexists; eexists | tauto]).
  all: try (intros _; left; tauto).
Qed.

(** C4.  The table [header_only] has the column-name field, no row,
    and neither of the two value fields.  [create_dict_pl] fails on it
    with the engine's missing-column error, which carries the name of
    the missing old-value field.  [create_dict_pd] returns the empty
    dictionary instead of failing: its loop body, the only place where
    the value fields are read, is never entered. *)
Lemma pandas_header_only_no_error :
  ~ has_fields header_only "column_name" "old_values" "new_labels"
  /\ create_dict_pl header_only "column_name" "old_values" "new_labels"
     = Raise (ColumnNotFoundError "old_values")
  /\ create_dict_pd header_only "column_name" "old_values" "new_labels" = Ok []
  /\ ~ schema_error_iff_missing create_dict_pd KeyError
         header_only "column_name" "old_values" "new_labels".
Proof.
  assert (Hmissing : ~ has_fields header_only "column_name" "old_values" "new_labels").
  { intros (_ & Ho & _). apply list_elem_of_singleton in Ho. discriminate Ho. }
  split_and!; [exact Hmissing | reflexivity | reflexivity |].
  intros [[_ Hraise] _]. destruct (Hraise Hmissing) as [f Hf]. discriminate Hf.
Qed.



Lemma keys_set_present {K V : Type} `{EqDecision K} (d : list (K * V)) k v :
  k ∈ Dict.keys d -> Dict.keys (Dict.set d k v) = Dict.keys d.
Proof.
  unfold Dict.keys. induction d as [|[k0 v0] d IH]; simpl; intros Hin.
  - by apply elem_of_nil in Hin.
  - destruct (decide (k0 = k)) as [->|Hne]; simpl; [done|]. f_equal. apply IH.
    apply elem_of_cons in Hin as [->|]; done.
Qed.

Lemma NoDup_keys_set {K V : Type} `{EqDecision K} (d : list (K * V)) k v :
  NoDup (Dict.keys d) -> NoDup (Dict.keys (Dict.set d k v)).
Proof.
  intros Hnd. destruct (decide (k ∈ Dict.keys d)) as [Hin|Hin].
  - by rewrite keys_set_present.
  - rewrite set_fresh by done. unfold Dict.keys in *. rewrite fmap_app. simpl.
    apply NoDup_app. split_and!; [done| |apply NoDup_singleton].
    intros x Hx Hx'. apply list_elem_of_singleton in Hx'. by subst x.
Qed.

Lemma NoDup_keys_of_pairs {K V : Type} `{EqDecision K} (ps : list (K * V)) :
  NoDup (Dict.keys (Dict.of_pairs ps)).
Proof.
  unfold Dict.of_pairs.
  assert (Hgen : forall d : list (K * V), NoDup (Dict.keys d) ->
            NoDup (Dict.keys (fold_left (fun d p => Dict.set d p.1 p.2) ps d))).
  { induction ps as [|p ps IH]; intros d Hd; simpl; [done|].
    by apply IH, NoDup_keys_set. }
  apply Hgen. constructor.
Qed.

(** ** Facts about recoding *)

Lemma replace_lookup_unmatched m (cells : list value) i v :
  cells !! i = Some v -> Dict.get m v = None -> replace m cells !! i = Some v.
Proof.
  intros Hi Hm. unfold replace. rewrite list_lookup_fmap, Hi. simpl.
  unfold replace_value. by rewrite Hm.
Qed.

Lemma replace_column_length nested name cells :
  length (replace_column nested name cells) = length cells.
Proof.
  unfold replace_column, replace. destruct (Dict.get nested (VStr name)); [|done].
  apply length_fmap.
Qed.

Lemma get_fmap_named {A B : Type} (F : string -> A -> B) (df : list (string * A)) name :
  Dict.get ((fun c => (c.1, F c.1 c.2)) <$> df) name = F name <$> Dict.get df name.
Proof.
  induction df as [|[c cells] df IH]; simpl; [done|].
  destruct (decide (c = name)) as [->|]; [done | apply IH].
Qed.

Lemma get_recode_pd (df : DataFrame) nested name :
  Dict.get (recode_pd df nested) name = replace_column nested name <$> Dict.get df name.
Proof. apply (get_fmap_named (replace_column nested)). Qed.

Lemma shape_recode_pd (df : DataFrame) nested : shape (recode_pd df nested) = shape df.
Proof.
  unfold shape, recode_pd. rewrite <- list_fmap_compose.
  apply Forall_fmap_ext, Forall_forall. intros [c cells] _. simpl.
  by rewrite replace_column_length.
Qed.

Lemma column_names_shape (df : DataFrame) : column_names df = fst <$> shape df.
Proof.
  unfold column_names, shape. rewrite <- list_fmap_compose.
  by apply Forall_fmap_ext, Forall_forall.
Qed.

Lemma get_shape (df : DataFrame) name : Dict.get (shape df) name = length <$> Dict.get df name.
Proof. apply (get_fmap_column length). Qed.

(** A frame with the shape of [df] whose columns are those of [df]
    passed through [replace_column] meets the frame conditions. *)
Lemma frame_preserved_pointwise (df : DataFrame) nested (df' : DataFrame) :
  shape df' = shape df ->
  (forall name, Dict.get df' name = replace_column nested name <$> Dict.get df name) ->
  frame_preserved df nested df'.
Proof.
  intros Hshape Hget. split; [done|]. split.
  - intros c Hc. rewrite Hget. unfold replace_column.
    apply get_None in Hc. rewrite Hc. by destruct (Dict.get df c).
  - intros c m cells Hm Hcells. exists (replace m cells).
    rewrite Hget, Hcells. unfold replace_column. rewrite Hm.
    split; [done|]. split; [apply length_fmap|].
    intros i v. apply replace_lookup_unmatched.
Qed.

Lemma shape_set (d : DataFrame) k v v' :
  Dict.get d k = Some v' -> length v = length v' -> shape (Dict.set d k v) = shape d.
Proof.
  intros Hg Hlen. induction d as [|[k0 v0] d IH]; simpl in *; [done|].
  destruct (decide (k0 = k)) as [->|]; simpl.
  - simplify_eq. unfold shape. simpl. by rewrite Hlen.
  - unfold shape in *. simpl. by rewrite IH.
Qed.

Lemma shape_fold_cols (cols : list (string * list value)) (d : DataFrame) :
  Forall (fun col => Dict.get (shape d) col.1 = Some (length col.2)) cols ->
  shape (fold_left (fun d c => Dict.set d c.1 c.2) cols d) = shape d.
Proof.
  revert d. induction cols as [|col cols IH]; intros d Hall; simpl; [done|].
  apply Forall_cons in Hall as [Hcol Hall].
  rewrite get_shape in Hcol.
  destruct (Dict.get d col.1) as [v'|] eqn:Hg; [|done]. simpl in Hcol.
  assert (Hs : shape (Dict.set d col.1 col.2) = shape d)
    by (eapply shape_set; [exact Hg | congruence]).
  rewrite IH; [done|]. by rewrite Hs.
Qed.

Lemma one_dtype_homogeneous m cells : one_dtype m cells -> homogeneous_mapping m.
Proof.
  intros [(_ & [_ Hk] & [_ Hv])|(_ & [_ Hk] & [_ Hv])]; split;
    first [by left | by right].
Qed.

Lemma replace_expr_homogeneous (engine : polars) c m a :
  homogeneous_mapping m ->
  replace_expr engine c m a = Ok {| e_col := c; e_mapping := m; e_alias := a |}.
Proof. intros Hm. unfold replace_expr. by rewrite decide_True. Qed.

Lemma replace_expr_cases (engine : polars) c m a :
  match replace_expr engine c m a with
  | Ok e => e = {| e_col := c; e_mapping := m; e_alias := a |}
  | Raise _ => ~ homogeneous_mapping m
  end.
Proof.
  unfold replace_expr. destruct (decide (homogeneous_mapping m)) as [Hm|Hm]; simpl; [done|].
  by destruct (mixed_mapping engine m) as [[]|e].
Qed.

Lemma expr_list_cases (engine : polars) (nested : Codebook) (l : list value) :
  (forall k, k ∈ l -> k ∈ Dict.keys nested) ->
  match mapM (fun c =>
                name ← pl_col c;
                m ← Dict.getitem nested c;
                replace_expr engine name m name) l with
  | Ok exprs =>
      Forall2 (fun k e => exists s m,
                 k = VStr s /\ Dict.get nested k = Some m
                 /\ e = {| e_col := s; e_mapping := m; e_alias := s |}) l exprs
  | Raise e =>
      (e = TypeError /\ exists z, VInt z ∈ l)
      \/ (exists k m, k ∈ l /\ Dict.get nested k = Some m /\ ~ homogeneous_mapping m)
  end.
Proof.
  unfold Dict.getitem.
  induction l as [|k l IH]; intros Hsub; simpl; [constructor|].
  destruct k as [z|s]; simpl.
  { left. split; [done|]. exists z. apply list_elem_of_here. }
  assert (Hk : is_Some (Dict.get nested (VStr s)))
    by (apply get_is_Some, Hsub, list_elem_of_here).
  destruct Hk as [m Hm]. rewrite Hm. simpl.
  assert (Hsub' : forall k, k ∈ l -> k ∈ Dict.keys nested)
    by (intros k Hk; by apply Hsub, list_elem_of_further).
  specialize (IH Hsub').
  pose proof (replace_expr_cases engine s m s) as Hexpr.
  destruct (replace_expr engine s m s) as [x|e]; simpl.
  2: { right. exists (VStr s), m. split; [apply list_elem_of_here | done]. }
  subst x.
  match goal with |- context [mapM ?f l] => destruct (mapM f l) as [exprs|e] end; simpl.
  - constructor; [by exists s, m | done].
  - destruct IH as [[-> [z Hz]]|(k & m' & Hk & Hm' & Hmixed)].
    + left. split; [done|]. exists z. by apply list_elem_of_further.
    + right. exists k, m'. split; [by apply list_elem_of_further | done].
Qed.

(** [mapM], by cases on its outcome. *)
Lemma mapM_Ok_inv {A B : Type} (f : A -> result B) l ys :
  mapM f l = Ok ys -> Forall2 (fun x y => f x = Ok y) l ys.
Proof.
  revert ys. induction l as [|x l IH]; intros ys; simpl.
  - intros [= <-]. constructor.
  - destruct (f x) as [y|e] eqn:Hx; simpl; [|done].
    destruct (mapM f l) as [ys'|e]; simpl; [|done].
    intros [= <-]. constructor; [done | by apply IH].
Qed.

Lemma mapM_Raise_inv {A B : Type} (f : A -> result B) l e :
  mapM f l = Raise e -> exists x, x ∈ l /\ f x = Raise e.
Proof.
  induction l as [|x l IH]; simpl; [done|].
  destruct (f x) as [y|e'] eqn:Hx; simpl.
  - destruct (mapM f l) as [ys|e'']; simpl; [done|].
    intros [= ->]. destruct IH as (x' & Hin & Hx'); [done|].
    exists x'. split; [by apply list_elem_of_further | done].
  - intros [= ->]. exists x. split; [apply list_elem_of_here | done].
Qed.

Lemma mapM_Forall2 {A B : Type} (f : A -> result B) (P : A -> B -> Prop) l :
  Forall (fun x => exists y, f x = Ok y /\ P x y) l ->
  exists ys, mapM f l = Ok ys /\ Forall2 P l ys.
Proof.
  induction l as [|x l IH]; intros Hall; simpl.
  - exists []. split; [done | constructor].
  - apply Forall_cons in Hall as [(y & Hy & HP) Hall].
    destruct (IH Hall) as (ys & Hys & HPs).
    exists (y :: ys). rewrite Hy. simpl. rewrite Hys. simpl.
    split; [done | by constructor].
Qed.

Lemma recode_expr_list_cases (engine : polars) (nested : Codebook) :
  match recode_expr_list engine nested with
  | Ok exprs =>
      Forall2 (fun k e => exists s m,
                 k = VStr s /\ Dict.get nested k = Some m
                 /\ e = {| e_col := s; e_mapping := m; e_alias := s |})
              (Dict.keys nested) exprs
  | Raise e =>
      (e = TypeError /\ exists z, VInt z ∈ Dict.keys nested)
      \/ (exists k m, k ∈ Dict.keys nested /\ Dict.get nested k = Some m
                      /\ ~ homogeneous_mapping m)
  end.
Proof. unfold recode_expr_list. by apply expr_list_cases. Qed.

Lemma resolve_Ok (df : DataFrame) (e : expr) ec :
  resolve df e = Ok ec ->
  exists cells, Dict.get df (e_col e) = Some cells /\ ec = (e, cells).
Proof.
  unfold resolve, col. destruct (Dict.get df (e_col e)) as [cells|]; simpl; [|done].
  intros [= <-]. by exists cells.
Qed.

Lemma resolve_Raise (df : DataFrame) (e : expr) x :
  resolve df e = Raise x ->
  Dict.get df (e_col e) = None /\ x = ColumnNotFoundError (e_col e).
Proof.
  unfold resolve, col. destruct (Dict.get df (e_col e)) as [cells|]; simpl; [done|].
  by intros [= <-].
Qed.

Lemma pl_replace_one_dtype (engine : polars) m cells :
  one_dtype m cells -> pl_replace engine m cells = Ok (replace m cells).
Proof. intros Hone. unfold pl_replace. by rewrite decide_True. Qed.

(** With a codebook key that names no column of the frame, the polars
    recoding raises, whatever the engine does with data types. *)
Lemma recode_pl_absent (engine : polars) (df : DataFrame) (nested : Codebook) :
  ~ keys_in_frame df nested ->
  exists e,
    recode_pl engine df nested = Raise e
    /\ (Forall (fun entry => homogeneous_mapping entry.2) nested ->
        (e = TypeError /\ exists z, VInt z ∈ Dict.keys nested)
        \/ (exists f, e = ColumnNotFoundError f /\ VStr f ∈ Dict.keys nested
                      /\ f ∉ column_names df)).
Proof.
  intros Hnot. unfold recode_pl.
  pose proof (recode_expr_list_cases engine nested) as Hexprs.
  destruct (recode_expr_list engine nested) as [exprs|e]; simpl.
  2: { exists e. split; [done|]. intros Hhom.
       destruct Hexprs as [Htype|(k & m & _ & Hm & Hmixed)]; [by left|].
       exfalso. apply Hmixed. rewrite Forall_forall in Hhom.
       apply (Hhom (k, m)). by apply get_Some_elem. }
  unfold with_columns.
  destruct (mapM (resolve df) exprs) as [inputs|e] eqn:Hres; simpl.
  - exfalso. apply Hnot. apply mapM_Ok_inv in Hres.
    apply Forall_forall. intros k Hk. apply list_elem_of_lookup in Hk as [i Hi].
    destruct (Forall2_lookup_l _ _ _ _ _ Hexprs Hi) as (x & Hx & s & m & -> & _ & ->).
    destruct (Forall2_lookup_l _ _ _ _ _ Hres Hx) as (ec & _ & Hec).
    apply resolve_Ok in Hec as (cells & Hcells & _). simpl in *.
    apply get_is_Some. by eexists.
  - exists e. split; [done|]. intros _. right.
    apply mapM_Raise_inv in Hres as (x & Hx & Hraise).
    apply resolve_Raise in Hraise as [Hnone ->]. exists (e_col x). split; [done|].
    apply list_elem_of_lookup in Hx as [i Hi].
    destruct (Forall2_lookup_r _ _ _ _ _ Hexprs Hi) as (k & Hk & s & m & -> & Hm & ->).
    simpl in *. split; [by eapply list_elem_of_lookup_2 | by apply get_None].
Qed.

Lemma recode_pl_Ok_keys (engine : polars) (df : DataFrame) (nested : Codebook) df' :
  recode_pl engine df nested = Ok df' -> keys_in_frame df nested.
Proof.
  intros Hdf'. unfold keys_in_frame.
  destruct (decide (Forall (names_column df) (Dict.keys nested))) as [|Hnot]; [done|].
  destruct (recode_pl_absent engine df nested Hnot) as (e & He & _). congruence.
Qed.

Lemma get_fold_cols (df : DataFrame) (nested : Codebook) cols name :
  Forall2 (recoded_column df nested) (Dict.keys nested) cols ->
  Dict.get (fold_left (fun d c => Dict.set d c.1 c.2) cols df) name
  = replace_column nested name <$> Dict.get df name.
Proof.
  intros Hcols. rewrite get_fold_set.
  destruct (Dict.get (reverse cols) name) as [v|] eqn:Hg.
  - apply get_Some_elem in Hg. rewrite elem_of_reverse in Hg.
    apply list_elem_of_lookup in Hg as [i Hi].
    destruct (Forall2_lookup_r _ _ _ _ _ Hcols Hi)
      as (k & Hk & s & m & cells & -> & Hm & Hcells & [= -> ->]).
    unfold replace_column. by rewrite Hm, Hcells.
  - unfold replace_column. destruct (Dict.get nested (VStr name)) as [m|] eqn:Hm.
    + exfalso. apply get_None in Hg. apply Hg.
      assert (Hin : VStr name ∈ Dict.keys nested) by (apply get_is_Some; by eexists).
      apply list_elem_of_lookup in Hin as [i Hi].
      destruct (Forall2_lookup_l _ _ _ _ _ Hcols Hi)
        as (col & Hcol & s & m' & cells & [= <-] & _ & _ & ->).
      unfold Dict.keys. apply list_elem_of_fmap. exists (name, replace m' cells).
      split; [done|]. apply elem_of_reverse. by eapply list_elem_of_lookup_2.
    + by destruct (Dict.get df name).
Qed.

Lemma shape_fold_recoded (df : DataFrame) (nested : Codebook) cols :
  Forall2 (recoded_column df nested) (Dict.keys nested) cols ->
  shape (fold_left (fun d c => Dict.set d c.1 c.2) cols df) = shape df.
Proof.
  intros Hcols. apply shape_fold_cols, Forall_forall. intros col Hcol.
  apply list_elem_of_lookup in Hcol as [i Hi].
  destruct (Forall2_lookup_r _ _ _ _ _ Hcols Hi)
    as (k & Hk & s & m & cells & -> & Hm & Hcells & ->).
  simpl. rewrite get_shape, Hcells. simpl. unfold replace. by rewrite length_fmap.
Qed.

(** On a frame with distinct column names, when every codebook key
    names a column and every recoded column is of one data type with
    its mapping, the polars recoding returns what the pandas recoding
    returns, whatever the engine does otherwise. *)
Lemma recode_pl_typed (engine : polars) (df : DataFrame) (nested : Codebook) :
  NoDup (column_names df) -> keys_in_frame df nested -> typed_for df nested ->
  recode_pl engine df nested = Ok (recode_pd df nested).
Proof.
  intros Hnd Hkeys Htyped. unfold recode_pl.
  assert (Hone : forall s m cells,
            Dict.get nested (VStr s) = Some m -> Dict.get df s = Some cells ->
            one_dtype m cells).
  { intros s m cells Hm Hcells. unfold typed_for in Htyped.
    rewrite Forall_forall in Htyped.
    specialize (Htyped (s, cells) (get_Some_elem _ _ _ Hcells)).
    unfold typed_column in Htyped. simpl in Htyped. by rewrite Hm in Htyped. }
  pose proof (recode_expr_list_cases engine nested) as Hexprs.
  destruct (recode_expr_list engine nested) as [exprs|e]; simpl.
  2: { exfalso. unfold keys_in_frame in Hkeys. rewrite Forall_forall in Hkeys.
       destruct Hexprs as [[_ [z Hz]]|(k & m & Hk & Hm & Hmixed)]; [apply (Hkeys _ Hz)|].
       specialize (Hkeys k Hk). destruct k as [z|s]; [done|]. simpl in Hkeys.
       apply get_is_Some in Hkeys as [cells Hcells].
       eapply Hmixed, one_dtype_homogeneous, Hone; done. }
  unfold with_columns.
  destruct (mapM_Forall2 (resolve df)
              (fun e ec => exists cells,
                 Dict.get df (e_col e) = Some cells /\ ec = (e, cells)) exprs)
    as (inputs & -> & Hinputs).
  { eapply Forall2_Forall_r; [exact Hexprs|].
    eapply Forall_impl; [exact Hkeys|].
    intros k Hk e (s & m & -> & Hm & ->). simpl in Hk.
    apply get_is_Some in Hk as [cells Hcells].
    exists ({| e_col := s; e_mapping := m; e_alias := s |}, cells).
    unfold resolve, col. simpl. rewrite Hcells. simpl. split; [done | by exists cells]. }
  simpl.
  assert (Hin : Forall2 (fun k ec => exists s m cells,
                           k = VStr s /\ Dict.get nested k = Some m
                           /\ Dict.get df s = Some cells
                           /\ ec = ({| e_col := s; e_mapping := m; e_alias := s |}, cells))
                        (Dict.keys nested) inputs).
  { eapply Forall2_trans; [|exact Hexprs|exact Hinputs].
    intros k e ec (s & m & -> & Hm & ->) (cells & Hcells & ->). simpl in *.
    by exists s, m, cells. }
  destruct (mapM_Forall2 (eval_expr engine)
              (fun ec col => col = (e_alias ec.1, replace (e_mapping ec.1) ec.2)) inputs)
    as (cols & -> & Hcols).
  { eapply Forall2_Forall_r; [exact Hin|]. apply Forall_forall.
    intros k _ ec (s & m & cells & -> & Hm & Hcells & ->).
    eexists. split; [|reflexivity]. unfold eval_expr. simpl.
    rewrite pl_replace_one_dtype; [done | by eapply Hone]. }
  simpl. f_equal.
  assert (Hrec : Forall2 (recoded_column df nested) (Dict.keys nested) cols).
  { eapply Forall2_trans; [|exact Hin|exact Hcols].
    intros k ec col (s & m & cells & -> & Hm & Hcells & ->) ->. simpl.
    by exists s, m, cells. }
  assert (Hnames : Dict.keys (fold_left (fun d c => Dict.set d c.1 c.2) cols df)
                   = Dict.keys (recode_pd df nested)).
  { change (column_names (fold_left (fun d c => Dict.set d c.1 c.2) cols df)
            = column_names (recode_pd df nested)).
    by rewrite !column_names_shape, (shape_fold_recoded df nested cols Hrec),
      shape_recode_pd. }
  apply dict_ext; [|done|].
  - rewrite Hnames. change (NoDup (column_names (recode_pd df nested))).
    by rewrite column_names_shape, shape_recode_pd, <- column_names_shape.
  - intros name. by rewrite (get_fold_cols df nested cols name Hrec), get_recode_pd.
Qed.

Lemma get_filter_ne {K V : Type} `{EqDecision K} (d : list (K * V)) k k' :
  k' <> k -> Dict.get (filter (fun e => e.1 <> k) d) k' = Dict.get d k'.
Proof.
  intros Hne. induction d as [|[k0 v0] d IH]; [done|].
  rewrite filter_cons. simpl. destruct (decide (k0 <> k)) as [Hk0|Hk0]; simpl.
  - by rewrite IH.
  - rewrite IH. destruct (decide (k0 = k')) as [<-|]; [|done].
    exfalso. apply Hk0. congruence.
Qed.

Lemma fmap_columns_id (df : DataFrame) (F : string -> list value -> list value) :
  (forall c cells, (c, cells) ∈ df -> F c cells = cells) ->
  (fun c => (c.1, F c.1 c.2)) <$> df = df.
Proof.
  intros HF. rewrite <- (list_fmap_id df) at 2.
  apply Forall_fmap_ext, Forall_forall. intros [c cells] Hin. simpl.
  by rewrite HF.
Qed.

Lemma elem_column_names (df : DataFrame) c cells : (c, cells) ∈ df -> c ∈ column_names df.
Proof. intros Hin. apply list_elem_of_fmap. by exists (c, cells). Qed.

Lemma get_of_pairs {K V : Type} `{EqDecision K} (ps : list (K * V)) k :
  Dict.get (Dict.of_pairs ps) k = Dict.get (reverse ps) k.
Proof. unfold Dict.of_pairs. rewrite get_fold_set. by destruct (Dict.get (reverse ps) k). Qed.

Lemma keys_invert_pairs (m : list (value * value)) :
  Dict.keys (reverse ((fun p => (p.2, p.1)) <$> m)) = reverse (snd <$> m).
Proof.
  unfold Dict.keys. by rewrite fmap_reverse, <- list_fmap_compose.
Qed.

Lemma invert_get_Some m v w :
  injective m -> Dict.get m v = Some w -> Dict.get (invert m) w = Some v.
Proof.
  intros Hinj Hg. unfold invert. rewrite get_of_pairs. apply elem_get_NoDup.
  - rewrite keys_invert_pairs. by rewrite reverse_Permutation.
  - apply elem_of_reverse, list_elem_of_fmap. exists (v, w).
    split; [done | by apply get_Some_elem].
Qed.

Lemma invert_get_None m v : v ∉ snd <$> m -> Dict.get (invert m) v = None.
Proof.
  intros Hv. unfold invert. rewrite get_of_pairs. apply get_None.
  rewrite keys_invert_pairs. by rewrite elem_of_reverse.
Qed.

Lemma keys_invert_codebook nested : Dict.keys (invert_codebook nested) = Dict.keys nested.
Proof.
  unfold Dict.keys, invert_codebook. rewrite <- list_fmap_compose.
  by apply Forall_fmap_ext, Forall_forall.
Qed.

Lemma replace_value_cases m v :
  replace_value m v = v \/ (v, replace_value m v) ∈ m.
Proof.
  unfold replace_value. destruct (Dict.get m v) as [w|] eqn:Hw; simpl; [|by left].
  right. by apply get_Some_elem.
Qed.

Lemma frame_preserved_recode_pd (df : DataFrame) (nested : Codebook) :
  frame_preserved df nested (recode_pd df nested).
Proof.
  apply frame_preserved_pointwise; [apply shape_recode_pd|].
  intros name. apply get_recode_pd.
Qed.

Lemma absent_key_skipped (df : DataFrame) (nested : Codebook) (k : value) :
  ~ names_column df k ->
  recode_pd df nested = recode_pd df (filter (fun e => e.1 <> k) nested).
Proof.
  intros Hnot. unfold recode_pd. apply Forall_fmap_ext, Forall_forall.
  intros [c cells] Hin. simpl. f_equal. unfold replace_column.
  rewrite get_filter_ne; [done|]. intros <-. apply Hnot. simpl.
  by eapply elem_column_names.
Qed.

Lemma absent_keys_identity (df : DataFrame) (nested : Codebook) :
  Forall (fun k => ~ names_column df k) (Dict.keys nested) -> recode_pd df nested = df.
Proof.
  intros Hall. rewrite Forall_forall in Hall.
  apply (fmap_columns_id df (replace_column nested)).
  intros c cells Hin. unfold replace_column.
  destruct (Dict.get nested (VStr c)) as [m|] eqn:Hm; [|done].
  exfalso. apply (Hall (VStr c)); [apply get_is_Some; by eexists|].
  simpl. by eapply elem_column_names.
Qed.

(** *** Data types *)

Lemma of_dtype_intro T (vs : list value) v0 :
  v0 ∈ vs -> (forall v, v ∈ vs -> dtype_of v = T) -> of_dtype T vs.
Proof.
  intros Hin Hall. split; [intros ->; by apply elem_of_nil in Hin|].
  by apply Forall_forall.
Qed.

Lemma of_dtype_elim T (vs : list value) :
  of_dtype T vs -> (exists v0, v0 ∈ vs) /\ forall v, v ∈ vs -> dtype_of v = T.
Proof.
  intros [Hne Hall]. split; [|by apply Forall_forall].
  destruct vs as [|v vs]; [done|]. exists v. apply list_elem_of_here.
Qed.

Lemma elem_keys_of_pairs {K V : Type} `{EqDecision K} (ps : list (K * V)) k :
  k ∈ Dict.keys (Dict.of_pairs ps) <-> k ∈ fst <$> ps.
Proof.
  rewrite <- get_is_Some, get_of_pairs, get_is_Some.
  unfold Dict.keys. by rewrite fmap_reverse, elem_of_reverse.
Qed.

Lemma elem_of_pairs {K V : Type} `{EqDecision K} (ps : list (K * V)) k v :
  (k, v) ∈ Dict.of_pairs ps -> (k, v) ∈ ps.
Proof.
  intros Hin. apply of_pairs_elem, elem_get_NoDup; [apply NoDup_keys_of_pairs | done].
Qed.

(** Within one data type a replacement stays in it, and so does the
    inverse mapping with the replaced column. *)
Lemma same_dtype_invert T m cells :
  same_dtype T m cells -> same_dtype T (invert m) (replace m cells).
Proof.
  intros (Hc & Hk & Hv).
  apply of_dtype_elim in Hc as [[c0 Hc0] Hcells].
  apply of_dtype_elim in Hk as [[k0 Hk0] Hkeys].
  apply of_dtype_elim in Hv as [[v0 Hv0] Hvals].
  assert (Hikeys : forall w, w ∈ Dict.keys (invert m) <-> w ∈ snd <$> m).
  { intros w. unfold invert. rewrite elem_keys_of_pairs, <- list_fmap_compose. done. }
  assert (Hivals : forall w, w ∈ snd <$> invert m -> w ∈ Dict.keys m).
  { intros w Hw. apply list_elem_of_fmap in Hw as ([k w'] & -> & Hin). simpl.
    unfold invert in Hin. apply elem_of_pairs in Hin.
    apply list_elem_of_fmap in Hin as ([a b] & [= -> ->] & Hab).
    apply list_elem_of_fmap. by exists (a, b). }
  split_and!.
  - apply (of_dtype_intro T _ (replace_value m c0)).
    + apply list_elem_of_fmap. by exists c0.
    + intros w Hw. apply list_elem_of_fmap in Hw as (v & -> & Hv).
      destruct (replace_value_cases m v) as [->|Hin]; [by apply Hcells|].
      apply Hvals, list_elem_of_fmap. by exists (v, replace_value m v).
  - apply (of_dtype_intro T _ v0); [by apply Hikeys|].
    intros w Hw. by apply Hvals, Hikeys.
  - assert (Hsome : is_Some (Dict.get (invert m) v0)) by (by apply get_is_Some, Hikeys).
    destruct Hsome as [k Hk]. apply get_Some_elem in Hk.
    apply (of_dtype_intro T _ k).
    + apply list_elem_of_fmap. by exists (v0, k).
    + intros w Hw. by apply Hkeys, Hivals.
Qed.

Lemma one_dtype_invert m cells : one_dtype m cells -> one_dtype (invert m) (replace m cells).
Proof. intros [H|H]; [left | right]; by apply same_dtype_invert. Qed.

Lemma typed_for_invert (df : DataFrame) (nested : Codebook) :
  typed_for df nested -> typed_for (recode_pd df nested) (invert_codebook nested).
Proof.
  unfold typed_for, recode_pd. intros Htyped. apply Forall_fmap.
  eapply Forall_impl; [exact Htyped|]. intros [c cells].
  unfold typed_column, invert_codebook, replace_column. simpl.
  rewrite (get_fmap_column invert).
  destruct (Dict.get nested (VStr c)) as [m|]; simpl; [|done].
  apply one_dtype_invert.
Qed.

(** ** Properties of recode *)

(** C2.  The polars recoding of [sex_data] with a codebook whose only
    key, "age", is no column of it returns no dataset at all, whatever
    the engine does with data types: [pl.col("age")] is not found.  On
    the same input the pandas recoding returns the dataset, and what it
    returns meets the frame conditions. *)
Lemma recode_pl_no_frame_for_absent_key :
  (forall engine, recode_pl engine sex_data age_codebook = Raise (ColumnNotFoundError "age"))
  /\ (forall engine,
        ~ exists df', recode_pl engine sex_data age_codebook = Ok df'
                      /\ frame_preserved sex_data age_codebook df')
  /\ recode_pd sex_data age_codebook = sex_data
  /\ frame_preserved sex_data age_codebook (recode_pd sex_data age_codebook).
Proof.
  split_and!; [reflexivity| |reflexivity|apply frame_preserved_recode_pd].
  intros engine (df' & Hdf' & _). discriminate Hdf'.
Qed.

(** C5.  "age" is a key of [sex_age_codebook] and no column of
    [sex_data].  The pandas recoding raises nothing and ignores the
    key: it returns what it returns for the codebook without "age".
    The polars recoding raises [ColumnNotFoundError] for "age",
    whatever the engine does with data types. *)
Lemma recode_pl_raises_on_absent_column :
  VStr "age" ∈ Dict.keys sex_age_codebook
  /\ ("age" ∉ column_names sex_data)
  /\ recode_pd sex_data sex_age_codebook
     = recode_pd sex_data (filter (fun e => e.1 <> VStr "age") sex_age_codebook)
  /\ (forall engine,
        recode_pl engine sex_data sex_age_codebook = Raise (ColumnNotFoundError "age")).
Proof.
  split_and!; [|intros Hin|reflexivity|reflexivity].
  - apply list_elem_of_further, list_elem_of_here.
  - apply list_elem_of_singleton in Hin. discriminate Hin.
Qed.

(** C6.  With the empty codebook both recodings return the dataset
    unchanged. *)
Theorem recode_empty_codebook (df : DataFrame) :
  recode_pd df [] = df /\ forall engine, recode_pl engine df [] = Ok df.
Proof.
  split; [|reflexivity].
  by apply (fmap_columns_id df (replace_column [])).
Qed.

(** C8, counterexample.  The mapping of "x" sends 1 to 2 and is
    injective; the column holds 1 and 2.  Recoding gives 2, 2, and
    recoding with the inverse mapping gives 1, 1: with pandas, and with
    polars as well, column and mapping being integers throughout. *)
Lemma round_trip_fails_on_collision :
  Forall (fun e => injective e.2) swap_codebook
  /\ recode_pd (recode_pd swap_data swap_codebook) (invert_codebook swap_codebook)
     = [("x", [VInt 1; VInt 1])]
  /\ (forall engine,
        (df1 ← recode_pl engine swap_data swap_codebook;
         recode_pl engine df1 (invert_codebook swap_codebook))
        = Ok [("x", [VInt 1; VInt 1])])
  /\ [("x", [VInt 1; VInt 1])] <> swap_data.
Proof.
  split_and!; [|reflexivity|reflexivity|discriminate].
  repeat constructor. apply not_elem_of_nil.
Qed.

(** C8, as the code has it.  Let every inner mapping be injective and
    let no cell of a recoded column hold a new value of its mapping
    unless the cell is a key of the mapping.  Then recoding with the
    codebook and recoding the result with the inverse codebook returns
    the dataset.  With pandas this holds as it stands.  With polars it
    holds when the column names are distinct, every codebook key names
    a column, and every recoded column is of one data type with the old
    and new values of its mapping. *)
Theorem recode_round_trip (df : DataFrame) (nested : Codebook) :
  Forall (fun e => injective e.2) nested -> no_collision df nested ->
  recode_pd (recode_pd df nested) (invert_codebook nested) = df
  /\ (NoDup (column_names df) -> keys_in_frame df nested -> typed_for df nested ->
      forall engine,
      exists df1, recode_pl engine df nested = Ok df1
                  /\ recode_pl engine df1 (invert_codebook nested) = Ok df).
Proof.
  intros Hinj Hcoll. rewrite Forall_forall in Hinj.
  assert (Hpd : recode_pd (recode_pd df nested) (invert_codebook nested) = df).
  { unfold recode_pd. rewrite <- list_fmap_compose.
    apply (fmap_columns_id df
             (fun c cells =>
                replace_column (invert_codebook nested) c (replace_column nested c cells))).
    intros c cells Hin. unfold replace_column, invert_codebook.
    rewrite (get_fmap_column invert).
    destruct (Dict.get nested (VStr c)) as [m|] eqn:Hm; simpl; [|done].
    unfold replace. rewrite <- list_fmap_compose.
    rewrite <- (list_fmap_id cells) at 2.
    apply Forall_fmap_ext, Forall_forall. intros v Hv. simpl.
    unfold replace_value at 2. destruct (Dict.get m v) as [w|] eqn:Hw; simpl.
    - unfold replace_value. rewrite (invert_get_Some m v w); [done| |done].
      apply (Hinj (VStr c, m)). by apply get_Some_elem.
    - unfold replace_value. rewrite invert_get_None; [done|]. by eapply Hcoll. }
  split; [done|]. intros Hnd Hkeys Htyped engine. exists (recode_pd df nested).
  split; [by apply recode_pl_typed|].
  rewrite <- Hpd at 2. apply recode_pl_typed.
  - by rewrite column_names_shape, shape_recode_pd, <- column_names_shape.
  - unfold keys_in_frame, names_column in *.
    by rewrite keys_invert_codebook, column_names_shape, shape_recode_pd,
      <- column_names_shape.
  - by apply typed_for_invert.
Qed.

Lemma recode_round_trip_witness :
  exists df1,
    recode_pl refuse round_data swap_codebook = Ok df1
    /\ recode_pl refuse df1 (invert_codebook swap_codebook) = Ok round_data.
Proof.
  refine (proj2 (recode_round_trip round_data swap_codebook _ _) _ _ _ refuse).
  - repeat constructor. apply not_elem_of_nil.
  - intros c cells m v Hin Hm Hv Hnone.
    apply list_elem_of_singleton in Hin. injection Hin as -> ->.
    vm_compute in Hm. injection Hm as <-.
    repeat (apply elem_of_cons in Hv as [->|Hv];
            [first [by vm_compute in Hnone
                   | simpl; intros Hx; apply list_elem_of_singleton in Hx; discriminate Hx]|]).
    by apply elem_of_nil in Hv.
  - compute_done.
  - repeat constructor.
  - compute_done.
Defined.


(** * Further properties of the code *)

(** ** Recoding *)

Lemma replace_column_cell nested c cells i w :
  replace_column nested c cells !! i = Some w ->
  exists v, cells !! i = Some v
            /\ (w = v \/ exists m, Dict.get nested (VStr c) = Some m /\ (v, w) ∈ m).
Proof.
  unfold replace_column. destruct (Dict.get nested (VStr c)) as [m|] eqn:Hm.
  - unfold replace. rewrite list_lookup_fmap.
    destruct (cells !! i) as [v|]; [|done]. simpl. intros [= <-]. exists v.
    split; [done|]. destruct (replace_value_cases m v) as [->|Hin]; [by left|].
    right. by exists m.
  - intros Hw. exists w. split; [done | by left].
Qed.

(** X1.  The pandas recoding never invents a value: every cell of a
    recoded column is the cell of the dataset at the same row of the
    same column, or a new value that the inner mapping of that column
    gives for that cell. *)
Theorem recode_cells_come_from (df : DataFrame) (nested : Codebook) :
  let from_source (df' : DataFrame) :=
    forall c cells' i w,
      Dict.get df' c = Some cells' -> cells' !! i = Some w ->
      exists cells v,
        Dict.get df c = Some cells /\ cells !! i = Some v
        /\ (w = v \/ exists m, Dict.get nested (VStr c) = Some m /\ (v, w) ∈ m) in
  from_source (recode_pd df nested).
Proof.
  intros from_source c cells' i w Hc Hi. rewrite get_recode_pd in Hc.
  destruct (Dict.get df c) as [cells|]; [|done]. simpl in Hc. simplify_eq.
  destruct (replace_column_cell _ _ _ _ _ Hi) as (v & Hv & Hw). by exists cells, v.
Qed.

Lemma recode_cells_come_from_witness :
  exists cells v,
    Dict.get sex_data "sex" = Some cells /\ cells !! 0%nat = Some v
    /\ (VStr "Male" = v
        \/ exists m, Dict.get sex_age_codebook (VStr "sex") = Some m /\ (v, VStr "Male") ∈ m).
Proof.
  exact (recode_cells_come_from sex_data sex_age_codebook "sex"
           [VStr "Male"; VStr "Female"; VStr "Male"] 0%nat (VStr "Male") eq_refl eq_refl).
Defined.

Lemma replace_settled m cells : settled m -> replace m (replace m cells) = replace m cells.
Proof.
  intros Hm. unfold replace. rewrite <- list_fmap_compose.
  apply Forall_fmap_ext, Forall_forall. intros v _. simpl.
  destruct (Dict.get m v) as [w|] eqn:Hw.
  - assert (Hv : replace_value m v = w) by (unfold replace_value; by rewrite Hw).
    rewrite Hv. by eapply Hm.
  - assert (Hv : replace_value m v = v) by (unfold replace_value; by rewrite Hw).
    by rewrite !Hv.
Qed.

Lemma recode_pd_pointwise (df : DataFrame) (F G : string -> list value -> list value) :
  (forall c cells, (c, cells) ∈ df -> F c cells = G c cells) ->
  (fun c => (c.1, F c.1 c.2)) <$> df = (fun c => (c.1, G c.1 c.2)) <$> df.
Proof.
  intros HFG. apply Forall_fmap_ext, Forall_forall. intros [c cells] Hin. simpl.
  by rewrite HFG.
Qed.

(** X2.  The pandas recoding is idempotent when no new value of a
    mapping is itself replaced by that mapping: recoding the recoded
    dataset with the same codebook changes nothing more.  Without the
    condition a second pass goes on replacing: with 1 to 2 and 2 to 3
    the cell 1 becomes 2 and then 3. *)
Theorem recode_twice (df : DataFrame) (nested : Codebook) :
  Forall (fun e => settled e.2) nested ->
  recode_pd (recode_pd df nested) nested = recode_pd df nested
  /\ replace chain_mapping (replace chain_mapping [VInt 1]) <> replace chain_mapping [VInt 1].
Proof.
  intros Hset. rewrite Forall_forall in Hset.
  assert (Hcol : forall c cells,
            replace_column nested c (replace_column nested c cells)
            = replace_column nested c cells).
  { intros c cells. unfold replace_column.
    destruct (Dict.get nested (VStr c)) as [m|] eqn:Hm; [|done].
    apply replace_settled, (Hset (VStr c, m)). by apply get_Some_elem. }
  split; [|discriminate].
  unfold recode_pd. rewrite <- list_fmap_compose.
  apply (recode_pd_pointwise df
           (fun c cells => replace_column nested c (replace_column nested c cells))
           (replace_column nested)).
  intros c cells _. apply Hcol.
Qed.

Lemma recode_twice_witness :
  recode_pd (recode_pd sex_data sex_age_codebook) sex_age_codebook
  = recode_pd sex_data sex_age_codebook.
Proof.
  refine (proj1 (recode_twice sex_data sex_age_codebook _)).
  repeat constructor; intros k v Hk; simpl in Hk;
    repeat (case_decide; simplify_eq; try reflexivity).
Defined.

Lemma get_app {K V : Type} `{EqDecision K} (d1 d2 : list (K * V)) k :
  Dict.get (d1 ++ d2) k
  = match Dict.get d1 k with Some v => Some v | None => Dict.get d2 k end.
Proof.
  induction d1 as [|[k0 v0] d1 IH]; simpl; [done|].
  by destruct (decide (k0 = k)).
Qed.

(** X3.  Columns are recoded independently of each other: for two
    codebooks without a common key, recoding with both at once is
    recoding with one and then with the other, in either order. *)
Theorem recode_disjoint_codebooks (df : DataFrame) (nested1 nested2 : Codebook) :
  (forall k, k ∈ Dict.keys nested1 -> k ∉ Dict.keys nested2) ->
  recode_pd df (nested1 ++ nested2) = recode_pd (recode_pd df nested1) nested2
  /\ recode_pd (recode_pd df nested1) nested2 = recode_pd (recode_pd df nested2) nested1.
Proof.
  intros Hdisj.
  assert (Hcases : forall c,
            Dict.get nested1 (VStr c) = None \/ Dict.get nested2 (VStr c) = None).
  { intros c. destruct (Dict.get nested1 (VStr c)) as [m|] eqn:Hm; [|by left].
    right. apply get_None, Hdisj, get_is_Some. by eexists. }
  unfold recode_pd. rewrite <- !list_fmap_compose. split.
  - apply (recode_pd_pointwise df (replace_column (nested1 ++ nested2))
             (fun c cells => replace_column nested2 c (replace_column nested1 c cells))).
    intros c cells _. unfold replace_column. rewrite get_app.
    destruct (Hcases c) as [H1|H2]; [by rewrite H1|].
    rewrite H2. by destruct (Dict.get nested1 (VStr c)).
  - apply (recode_pd_pointwise df
             (fun c cells => replace_column nested2 c (replace_column nested1 c cells))
             (fun c cells => replace_column nested1 c (replace_column nested2 c cells))).
    intros c cells _. unfold replace_column.
    destruct (Hcases c) as [H1|H2]; [by rewrite H1 | by rewrite H2].
Qed.

Lemma recode_disjoint_codebooks_witness :
  recode_pd sex_data (age_codebook ++ [(VStr "sex", [(VInt 1, VStr "Male")])])
  = recode_pd (recode_pd sex_data age_codebook) [(VStr "sex", [(VInt 1, VStr "Male")])].
Proof.
  refine (proj1 (recode_disjoint_codebooks sex_data age_codebook
                   [(VStr "sex", [(VInt 1, VStr "Male")])] _)).
  intros k Hk Hk'. apply list_elem_of_singleton in Hk, Hk'. simpl in *. congruence.
Defined.

(** X4.  When polars and pandas recode alike.  On a dataset with
    distinct column names, with a codebook whose every key names a
    column and whose mappings are each of one data type with the column
    they recode, the polars recoding returns exactly the dataset that
    the pandas recoding returns, whatever the installed polars does
    outside one data type. *)
Theorem recode_pl_returns_recode_pd (engine : polars)
    (df : DataFrame) (nested : Codebook) :
  NoDup (column_names df) -> keys_in_frame df nested -> typed_for df nested ->
  recode_pl engine df nested = Ok (recode_pd df nested).
Proof. apply recode_pl_typed. Qed.

Lemma recode_pl_returns_recode_pd_witness :
  recode_pl refuse grp_sex_data [(VStr "grp", [(VStr "A", VStr "X")])]
  = Ok (recode_pd grp_sex_data [(VStr "grp", [(VStr "A", VStr "X")])]).
Proof.
  apply (recode_pl_returns_recode_pd refuse grp_sex_data
           [(VStr "grp", [(VStr "A", VStr "X")])]).
  - compute_done.
  - repeat constructor.
  - compute_done.
Defined.

(** X12.  The frame conditions of recoding.  The pandas recoding
    returns, for every dataset and codebook, a dataset of the same shape
    (same columns in the same order, same number of rows) in which every
    column that is no codebook key is unchanged and, in a column that is
    a codebook key, every cell that is no key of the inner mapping is
    unchanged, row by row.  The polars recoding returns such a dataset
    when the column names are distinct, every codebook key names a
    column and every recoded column is of one data type with its
    mapping. *)
Theorem recode_frame (df : DataFrame) (nested : Codebook) :
  frame_preserved df nested (recode_pd df nested)
  /\ (NoDup (column_names df) -> keys_in_frame df nested -> typed_for df nested ->
      forall engine,
      exists df', recode_pl engine df nested = Ok df' /\ frame_preserved df nested df').
Proof.
  split; [apply frame_preserved_recode_pd|].
  intros Hnd Hkeys Htyped engine. exists (recode_pd df nested).
  split; [by apply recode_pl_typed | apply frame_preserved_recode_pd].
Qed.

Lemma recode_frame_witness :
  exists df',
    recode_pl refuse grp_sex_data [(VStr "grp", [(VStr "A", VStr "X")])] = Ok df'
    /\ frame_preserved grp_sex_data [(VStr "grp", [(VStr "A", VStr "X")])] df'.
Proof.
  refine (proj2 (recode_frame grp_sex_data [(VStr "grp", [(VStr "A", VStr "X")])])
            _ _ _ refuse).
  - compute_done.
  - repeat constructor.
  - compute_done.
Defined.

(** X13.  A codebook key that names no column of the dataset.  The
    pandas recoding raises nothing and skips the key: it returns what
    it returns for the codebook without the key, and the dataset itself
    when no codebook key names a column.  The polars recoding raises,
    whatever the engine does with data types; when in every inner
    mapping the old values are of one type and the new values are of
    one type, it raises [TypeError] when some key is not a string, else
    [ColumnNotFoundError] with the name of a codebook key that is no
    column of the dataset. *)
Theorem absent_key_skipped_or_raised (df : DataFrame) (nested : Codebook) (k : value) :
  k ∈ Dict.keys nested -> ~ names_column df k ->
  recode_pd df nested = recode_pd df (filter (fun e => e.1 <> k) nested)
  /\ (Forall (fun k' => ~ names_column df k') (Dict.keys nested) ->
      recode_pd df nested = df)
  /\ forall engine, exists e,
       recode_pl engine df nested = Raise e
       /\ (Forall (fun entry => homogeneous_mapping entry.2) nested ->
           (e = TypeError /\ exists z, VInt z ∈ Dict.keys nested)
           \/ (exists f, e = ColumnNotFoundError f /\ VStr f ∈ Dict.keys nested
                         /\ f ∉ column_names df)).
Proof.
  intros Hk Hnot. split_and!.
  - by apply absent_key_skipped.
  - apply absent_keys_identity.
  - intros engine. apply recode_pl_absent. unfold keys_in_frame.
    rewrite Forall_forall. intros Hall. by apply Hnot, Hall.
Qed.

Lemma absent_key_skipped_or_raised_witness :
  exists e,
    recode_pl refuse sex_data sex_age_codebook = Raise e
    /\ (Forall (fun entry => homogeneous_mapping entry.2) sex_age_codebook ->
        (e = TypeError /\ exists z, VInt z ∈ Dict.keys sex_age_codebook)
        \/ (exists f, e = ColumnNotFoundError f /\ VStr f ∈ Dict.keys sex_age_codebook
                      /\ f ∉ column_names sex_data)).
Proof.
  refine (proj2 (proj2 (absent_key_skipped_or_raised sex_data sex_age_codebook
                          (VStr "age") _ _)) refuse).
  - apply list_elem_of_further, list_elem_of_here.
  - simpl. intros Hin. apply list_elem_of_singleton in Hin. discriminate Hin.
Defined.

(** ** Compiling *)

(** X5.  Both compile functions read the table through its three named
    fields only: two tables that agree on these three columns (whatever
    else they hold, in whatever column order) give the same outcome, be
    it a codebook or an exception. *)
Theorem compile_reads_three_fields (df df' : DataFrame) (c o n : string) :
  Dict.get df c = Dict.get df' c ->
  Dict.get df o = Dict.get df' o ->
  Dict.get df n = Dict.get df' n ->
  create_dict_pd df c o n = create_dict_pd df' c o n
  /\ create_dict_pl df c o n = create_dict_pl df' c o n.
Proof.
  intros Hc Ho Hn. split.
  - pose proof (create_dict_pd_cases df c o n) as H1.
    pose proof (create_dict_pd_cases df' c o n) as H2.
    rewrite <- Hc, <- Ho, <- Hn in H2.
    destruct (Dict.get df c) as [[|k ks]|]; [congruence| |congruence].
    destruct (Dict.get df o), (Dict.get df n); congruence.
  - unfold create_dict_pl, group_by_agg, col. by rewrite Hc, Ho, Hn.
Qed.

Lemma compile_reads_three_fields_witness :
  create_dict_pd sex_codebook_int "column_name" "old_values" "new_labels"
  = create_dict_pd sex_codebook_notes "column_name" "old_values" "new_labels".
Proof.
  exact (proj1 (compile_reads_three_fields sex_codebook_int sex_codebook_notes
                  "column_name" "old_values" "new_labels" eq_refl eq_refl eq_refl)).
Defined.

Lemma fold_set_pairs_fresh {K V : Type} `{EqDecision K} (ps d : list (K * V)) :
  NoDup (fst <$> ps) -> (forall k, k ∈ fst <$> ps -> k ∉ Dict.keys d) ->
  fold_left (fun d p => Dict.set d p.1 p.2) ps d = d ++ ps.
Proof.
  revert d. induction ps as [|[k v] ps IH]; intros d Hnd Hfresh; simpl.
  - by rewrite app_nil_r.
  - rewrite fmap_cons in Hnd. apply NoDup_cons in Hnd as [Hk Hnd].
    rewrite set_fresh by (apply Hfresh, list_elem_of_here).
    rewrite IH; [by rewrite <- app_assoc | done |].
    intros k' Hk'. unfold Dict.keys. rewrite fmap_app, elem_of_app. simpl.
    intros [Hin|Hin].
    + eapply Hfresh; [by apply list_elem_of_further | exact Hin].
    + apply list_elem_of_singleton in Hin. simpl in Hk. congruence.
Qed.

Lemma of_pairs_NoDup {K V : Type} `{EqDecision K} (ps : list (K * V)) :
  NoDup (fst <$> ps) -> Dict.of_pairs ps = ps.
Proof.
  intros Hnd. unfold Dict.of_pairs. rewrite fold_set_pairs_fresh; [done..|].
  intros k _. apply not_elem_of_nil.
Qed.

Lemma group_olds_NoDup (rows : list (value * (value * value))) k :
  NoDup ((fun r => (r.1, r.2.1)) <$> rows) ->
  NoDup (fst <$> (snd <$> filter (fun r => r.1 = k) rows)).
Proof.
  induction rows as [|[k0 [o0 n0]] rows IH]; intros Hnd; [constructor|].
  rewrite fmap_cons in Hnd. apply NoDup_cons in Hnd as [Hfirst Hnd]. simpl in Hfirst.
  rewrite filter_cons. simpl. destruct (decide (k0 = k)) as [->|]; [|by apply IH].
  rewrite !fmap_cons. simpl. apply NoDup_cons. split; [|by apply IH].
  intros Hin. apply Hfirst.
  apply list_elem_of_fmap in Hin as ([o1 n1] & Ho1 & Hin). simpl in Ho1. subst o1.
  apply list_elem_of_fmap in Hin as ([k1 p1] & Hp1 & Hin). simpl in Hp1. subst p1.
  apply list_elem_of_filter in Hin as [Hk1 Hin]. simpl in Hk1. subst k1.
  apply list_elem_of_fmap. by exists (k, (o0, n1)).
Qed.

(** X6.  When no two rows of the codebook table share both the column
    name and the old value, nothing collapses: the inner mapping of a
    group is exactly the list of the (old value, new value) pairs of the
    rows of that group, in row order. *)
Theorem distinct_rows_all_kept (df : DataFrame) (c o n : string) (ks os ns : list value) :
  Dict.get df c = Some ks -> Dict.get df o = Some os -> Dict.get df n = Some ns ->
  NoDup ((fun r => (r.1, r.2.1)) <$> codebook_rows ks os ns) ->
  exists d,
    create_dict_pd df c o n = Ok d
    /\ (c <> o -> c <> n -> o <> n -> create_dict_pl df c o n = Ok d)
    /\ forall k, k ∈ ks ->
         Dict.get d k = Some (snd <$> filter (fun r => r.1 = k) (codebook_rows ks os ns)).
Proof.
  intros Hc Ho Hn Hnd. exists (compiled ks os ns).
  split; [by apply create_dict_pd_compiled|].
  split; [intros; by apply create_dict_pl_compiled|].
  intros k Hk. rewrite get_compiled by done. f_equal.
  by apply of_pairs_NoDup, group_olds_NoDup.
Qed.

Lemma distinct_rows_all_kept_witness :
  exists d,
    create_dict_pd sex_grp_codebook "column_name" "old_values" "new_labels" = Ok d
    /\ Dict.get d (VStr "sex") = Some [(VInt 1, VStr "Male"); (VInt 2, VStr "Female")].
Proof.
  destruct (distinct_rows_all_kept sex_grp_codebook "column_name" "old_values" "new_labels"
              [VStr "sex"; VStr "grp"; VStr "sex"] [VInt 1; VStr "A"; VInt 2]
              [VStr "Male"; VStr "X"; VStr "Female"] eq_refl eq_refl eq_refl)
    as (d & Hd & _ & Hget); [compute_done|].
  exists d. split; [done|]. rewrite Hget; [reflexivity|]. apply list_elem_of_here.
Defined.

Lemma compiled_well_formed (df : DataFrame) c o n ks os ns :
  Dict.get df c = Some ks -> Dict.get df o = Some os -> Dict.get df n = Some ns ->
  NoDup (Dict.keys (compiled ks os ns))
  /\ (forall k m, (k, m) ∈ compiled ks os ns -> NoDup (Dict.keys m))
  /\ (rectangular df -> forall k m, (k, m) ∈ compiled ks os ns -> m <> []).
Proof.
  intros Hc Ho Hn.
  assert (Hnd : NoDup (Dict.keys (compiled ks os ns)))
    by (rewrite keys_compiled; apply NoDup_group_keys).
  split_and!; [done| |].
  - intros k m Hin. unfold compiled in Hin.
    apply list_elem_of_fmap in Hin as (g & [= -> ->] & _). apply NoDup_keys_of_pairs.
  - intros Hrect k m Hin Hnil.
    destruct (codebook_rows_length df c o n ks os ns Hrect Hc Ho Hn)
      as (Hlk & Hlo & Hln & _).
    assert (Hk : k ∈ ks).
    { apply elem_of_group_keys. rewrite <- (keys_compiled ks os ns).
      apply list_elem_of_fmap. by exists (k, m). }
    apply list_elem_of_lookup in Hk as [i Hi].
    destruct (lookup_lt_is_Some_2 os i) as [old Hold];
      [apply lookup_lt_Some in Hi; lia|].
    destruct (lookup_lt_is_Some_2 ns i) as [new Hnew];
      [apply lookup_lt_Some in Hi; lia|].
    assert (Hrow : codebook_rows ks os ns !! i = Some (k, (old, new)))
      by (by apply codebook_rows_lookup).
    destruct (last_occurrence (fun r => r.1 = k /\ r.2.1 = old) _ _ _ Hrow)
      as (j & [k' [old' new']] & _ & Hj & [Hk' Ho'] & Hlast); [done|].
    simpl in Hk', Ho'. subst k' old'.
    destruct (compiled_last_wins ks os ns j k old new' Hj) as (m' & Hm' & Hget).
    { intros j' x Hlt Hj'. by apply (Hlast j' _ Hlt Hj'). }
    rewrite (elem_get_NoDup _ _ _ Hnd Hin) in Hm'. by simplify_eq.
Qed.

(** X7.  Whatever codebook a compile function returns is a well-formed
    nested dictionary: no outer key occurs twice, no inner mapping has a
    key twice, and, the table being rectangular, no inner mapping is
    empty (every group has a row). *)
Theorem compiled_codebook_well_formed (df : DataFrame) (c o n : string) (d : Codebook) :
  create_dict_pd df c o n = Ok d \/ create_dict_pl df c o n = Ok d ->
  NoDup (Dict.keys d)
  /\ (forall k m, (k, m) ∈ d -> NoDup (Dict.keys m))
  /\ (rectangular df -> forall k m, (k, m) ∈ d -> m <> []).
Proof.
  assert (Hnil : NoDup (Dict.keys (@nil (value * list (value * value))))
                 /\ (forall k m, (k, m) ∈ @nil (value * list (value * value)) ->
                       NoDup (Dict.keys m))
                 /\ (rectangular df ->
                     forall k m, (k, m) ∈ @nil (value * list (value * value)) -> m <> [])).
  { split_and!; [apply NoDup_nil_2 | intros k m Hin | intros _ k m Hin];
      by apply elem_of_nil in Hin. }
  intros [Hd|Hd].
  - pose proof (create_dict_pd_cases df c o n) as Hcases.
    destruct (Dict.get df c) as [[|k ks]|] eqn:Hc; [| |congruence].
    { rewrite Hcases in Hd. by injection Hd as <-. }
    destruct (Dict.get df o) as [os|] eqn:Ho; [|congruence].
    destruct (Dict.get df n) as [ns|] eqn:Hn; [|congruence].
    rewrite Hcases in Hd. injection Hd as <-. by eapply compiled_well_formed.
  - pose proof (create_dict_pl_cases df c o n) as Hcases.
    destruct (Dict.get df c) as [ks|] eqn:Hc; [|congruence].
    destruct (Dict.get df o) as [os|] eqn:Ho; [|congruence].
    destruct (Dict.get df n) as [ns|] eqn:Hn; [|congruence].
    destruct Hcases as [Hcases|[f Hf]]; [|congruence].
    rewrite Hcases in Hd. injection Hd as <-. by eapply compiled_well_formed.
Qed.

Lemma compiled_codebook_well_formed_witness :
  NoDup (Dict.keys [(VStr "grp", [(VStr "A", VStr "Y")])]).
Proof.
  exact (proj1 (compiled_codebook_well_formed grp_codebook
                  "column_name" "old_values" "new_labels"
                  [(VStr "grp", [(VStr "A", VStr "Y")])] (or_introl eq_refl))).
Defined.

Lemma group_keys_from_snoc seen l k :
  group_keys_from seen (l ++ [k])
  = group_keys_from seen l ++ (if decide (k ∈ seen \/ k ∈ l) then [] else [k]).
Proof.
  revert seen. induction l as [|a l IH]; intros seen; simpl.
  - destruct (decide (k ∈ seen)) as [Hin|Hin].
    + rewrite decide_True; [done | by left].
    + rewrite decide_False; [done|]. intros [?|Hnil]; [done|]. by apply elem_of_nil in Hnil.
  - destruct (decide (a ∈ seen)) as [Ha|Ha]; rewrite IH; simpl; f_equal.
    + apply decide_ext. rewrite elem_of_cons. split; [tauto|].
      intros [?|[->|?]]; tauto.
    + f_equal. apply decide_ext. rewrite !elem_of_cons. tauto.
Qed.

Lemma filter_key_absent (rows : list (value * (value * value))) k :
  k ∉ fst <$> rows -> filter (fun r => r.1 = k) rows = [].
Proof.
  induction rows as [|r rows IH]; intros Hk; [done|].
  rewrite fmap_cons, not_elem_of_cons in Hk. destruct Hk as [Hne Hk].
  rewrite filter_cons, decide_False by congruence. by apply IH.
Qed.

Lemma group_pairs_snoc (rows : list (value * (value * value))) k o n g :
  Dict.of_pairs (snd <$> filter (fun r => r.1 = g) (rows ++ [(k, (o, n))]))
  = if decide (k = g)
    then Dict.set (Dict.of_pairs (snd <$> filter (fun r => r.1 = g) rows)) o n
    else Dict.of_pairs (snd <$> filter (fun r => r.1 = g) rows).
Proof.
  rewrite filter_app, fmap_app, filter_cons, filter_nil. simpl.
  destruct (decide (k = g)) as [Heq|Hne]; simpl.
  - unfold Dict.of_pairs. by rewrite fold_left_app.
  - by rewrite app_nil_r.
Qed.

Lemma set_fmap_pair {K V : Type} `{EqDecision K} (F : K -> V) (l : list K) k v :
  NoDup l -> k ∈ l ->
  Dict.set ((fun g => (g, F g)) <$> l) k v
  = (fun g => (g, if decide (k = g) then v else F g)) <$> l.
Proof.
  induction l as [|g l IH]; intros Hnd Hk; [by apply elem_of_nil in Hk|].
  apply NoDup_cons in Hnd as [Hg Hnd]. rewrite !fmap_cons. cbn [Dict.set].
  destruct (decide (g = k)) as [->|Hne].
  - rewrite decide_True by done. f_equal.
    apply Forall_fmap_ext, Forall_forall. intros g Hin. simpl.
    rewrite decide_False; [done|]. by intros <-.
  - rewrite decide_False by congruence. f_equal. apply IH; [done|].
    apply elem_of_cons in Hk as [->|]; done.
Qed.

(** One more row at the end of the table updates the codebook the way
    [add_row] does. *)
Lemma compiled_of_rows_snoc rows k o n :
  compiled_of_rows (rows ++ [(k, (o, n))]) = add_row (compiled_of_rows rows) (k, (o, n)).
Proof.
  unfold compiled_of_rows, add_row, group_keys. cbn [fst snd].
  rewrite fmap_app. change (fst <$> [(k, (o, n))]) with [k].
  rewrite group_keys_from_snoc.
  set (gk := group_keys_from [] (fst <$> rows)).
  assert (Hgk : forall g, g ∈ gk <-> g ∈ fst <$> rows) by apply elem_of_group_keys.
  rewrite (get_fmap_pair
             (fun g => Dict.of_pairs (snd <$> filter (fun r => r.1 = g) rows)) gk k).
  destruct (decide (k ∈ [] \/ k ∈ fst <$> rows)) as [[Hnil|Hin]|Hnot].
  - by apply elem_of_nil in Hnil.
  - rewrite app_nil_r, decide_True by (by apply Hgk). simpl.
    rewrite (set_fmap_pair
               (fun g => Dict.of_pairs (snd <$> filter (fun r => r.1 = g) rows)));
      [|apply NoDup_group_keys | by apply Hgk].
    apply Forall_fmap_ext, Forall_forall. intros g _. simpl.
    rewrite group_pairs_snoc. by destruct (decide (k = g)) as [->|].
  - assert (Hk : k ∉ fst <$> rows) by tauto.
    rewrite decide_False by (by rewrite Hgk). simpl.
    rewrite set_fresh.
    + rewrite fmap_app. simpl. f_equal.
      * apply Forall_fmap_ext, Forall_forall. intros g Hg. simpl.
        rewrite group_pairs_snoc, decide_False; [done|].
        intros <-. by apply Hk, Hgk.
      * by rewrite group_pairs_snoc, decide_True, filter_key_absent.
    + unfold Dict.keys. rewrite <- list_fmap_compose.
      intros Hin. apply Hk, Hgk.
      apply list_elem_of_fmap in Hin as (g & -> & Hg). done.
Qed.

Lemma compile_rows_compiled_of_rows rows : compile_rows rows = compiled_of_rows rows.
Proof.
  induction rows as [|[k [o n]] rows IH] using rev_ind; [done|].
  unfold compile_rows in *. by rewrite fold_left_app, IH, compiled_of_rows_snoc.
Qed.

Lemma compiled_compiled_of_rows ks os ns :
  length ks = length os -> length os = length ns ->
  compiled ks os ns = compiled_of_rows (codebook_rows ks os ns).
Proof.
  intros Hko Hon. unfold compiled, compiled_of_rows, codebook_rows.
  rewrite fst_zip by (rewrite length_zip_with; lia).
  apply Forall_fmap_ext, Forall_forall. intros g _. simpl.
  unfold dict_zip. by rewrite take_group_zip.
Qed.

(** X8.  Compiling is reading the table one row at a time: on a
    rectangular table with the three fields, both compile functions
    return the nested dictionary obtained by going through the rows in
    order and assigning, for the row [(k, old, new)], [new] to [old] in
    the inner mapping of [k], created at the end when [k] is new.  (The
    grouping of the engines and this single pass give the same keys in
    the same order, outer and inner.) *)
Theorem compile_row_by_row (df : DataFrame) (c o n : string) (ks os ns : list value) :
  rectangular df ->
  Dict.get df c = Some ks -> Dict.get df o = Some os -> Dict.get df n = Some ns ->
  create_dict_pd df c o n = Ok (compile_rows (codebook_rows ks os ns))
  /\ (c <> o -> c <> n -> o <> n ->
      create_dict_pl df c o n = Ok (compile_rows (codebook_rows ks os ns))).
Proof.
  intros Hrect Hc Ho Hn.
  destruct (codebook_rows_length df c o n ks os ns Hrect Hc Ho Hn) as (Hlk & Hlo & Hln & _).
  rewrite compile_rows_compiled_of_rows, <- compiled_compiled_of_rows by lia.
  split; [by apply create_dict_pd_compiled | intros; by apply create_dict_pl_compiled].
Qed.

Lemma compile_row_by_row_witness :
  create_dict_pd sex_grp_codebook "column_name" "old_values" "new_labels"
  = Ok (compile_rows [ (VStr "sex", (VInt 1, VStr "Male"));
                       (VStr "grp", (VStr "A", VStr "X"));
                       (VStr "sex", (VInt 2, VStr "Female")) ]).
Proof.
  refine (proj1 (compile_row_by_row sex_grp_codebook "column_name" "old_values" "new_labels"
                   [VStr "sex"; VStr "grp"; VStr "sex"] [VInt 1; VStr "A"; VInt 2]
                   [VStr "Male"; VStr "X"; VStr "Female"] _ eq_refl eq_refl eq_refl)).
  repeat constructor.
Defined.

(** ** The script: compiling, then recoding *)

Lemma replace_column_by_rows ks os ns c (cells : list value) i v :
  cells !! i = Some v ->
  (forall j new,
     codebook_rows ks os ns !! j = Some (VStr c, (v, new)) ->
     (forall j' x, (j < j')%nat -> codebook_rows ks os ns !! j' <> Some (VStr c, (v, x))) ->
     replace_column (compiled ks os ns) c cells !! i = Some new)
  /\ ((forall j new, codebook_rows ks os ns !! j <> Some (VStr c, (v, new))) ->
      replace_column (compiled ks os ns) c cells !! i = Some v).
Proof.
  intros Hi. split.
  - intros j new Hj Hlast.
    destruct (compiled_last_wins ks os ns j (VStr c) v new Hj Hlast) as (m & Hm & Hv).
    unfold replace_column, replace. rewrite Hm, list_lookup_fmap, Hi. simpl.
    unfold replace_value. by rewrite Hv.
  - intros Hnone. unfold replace_column.
    destruct (Dict.get (compiled ks os ns) (VStr c)) as [m|] eqn:Hm; [|done].
    apply replace_lookup_unmatched; [done|].
    destruct (Dict.get m v) as [new|] eqn:Hv; [|done]. exfalso.
    pose proof (compiled_entry_row ks os ns _ _ _ _ Hm Hv) as Hin.
    apply list_elem_of_lookup in Hin as [j Hj]. by apply (Hnone j new).
Qed.

Lemma main_compiled (csv_codebook : DataFrame) ks os ns :
  Dict.get csv_codebook "column_name" = Some ks ->
  Dict.get csv_codebook "old_values" = Some os ->
  Dict.get csv_codebook "new_labels" = Some ns ->
  create_dict_pd csv_codebook "column_name" "old_values" "new_labels" = Ok (compiled ks os ns)
  /\ create_dict_pl csv_codebook "column_name" "old_values" "new_labels"
     = Ok (compiled ks os ns).
Proof.
  intros Hc Ho Hn. split; [by apply create_dict_pd_compiled|].
  by apply create_dict_pl_compiled.
Qed.

(** X9.  What the pandas half of the script does to a cell.  With a
    codebook table that has the fields "column_name", "old_values" and
    "new_labels", it returns a dataset of the shape of the data in which
    the cell [v] of column [c] has become the new label of the last
    codebook row [(c, v, label)], and is still [v] when the codebook has
    no row for [c] and [v]. *)
Theorem main_recodes_cells (csv_codebook data : DataFrame) (ks os ns : list value) :
  Dict.get csv_codebook "column_name" = Some ks ->
  Dict.get csv_codebook "old_values" = Some os ->
  Dict.get csv_codebook "new_labels" = Some ns ->
  let recoded (data' : DataFrame) :=
    shape data' = shape data
    /\ forall c cells i v,
         Dict.get data c = Some cells -> cells !! i = Some v ->
         exists cells',
           Dict.get data' c = Some cells'
           /\ (forall j label,
                 codebook_rows ks os ns !! j = Some (VStr c, (v, label)) ->
                 (forall j' x, (j < j')%nat ->
                    codebook_rows ks os ns !! j' <> Some (VStr c, (v, x))) ->
                 cells' !! i = Some label)
           /\ ((forall j label, codebook_rows ks os ns !! j <> Some (VStr c, (v, label))) ->
               cells' !! i = Some v) in
  exists data', main_pd csv_codebook data = Ok data' /\ recoded data'.
Proof.
  intros Hc Ho Hn recoded.
  destruct (main_compiled csv_codebook ks os ns Hc Ho Hn) as [Hpd _].
  exists (recode_pd data (compiled ks os ns)). unfold main_pd. rewrite Hpd.
  split; [done|]. split; [apply shape_recode_pd|].
  intros c cells i v Hcells Hi.
  exists (replace_column (compiled ks os ns) c cells).
  rewrite get_recode_pd, Hcells. split; [done|]. by apply replace_column_by_rows.
Qed.

Lemma main_recodes_cells_witness :
  exists data', main_pd sex_grp_codebook sex_grp_data = Ok data'
                /\ shape data' = shape sex_grp_data.
Proof.
  destruct (main_recodes_cells sex_grp_codebook sex_grp_data
              [VStr "sex"; VStr "grp"; VStr "sex"] [VInt 1; VStr "A"; VInt 2]
              [VStr "Male"; VStr "X"; VStr "Female"] eq_refl eq_refl eq_refl)
    as (data' & Hmain & Hshape & _).
  by exists data'.
Defined.

Lemma keys_in_frame_compiled (data : DataFrame) ks os ns :
  keys_in_frame data (compiled ks os ns) <-> Forall (names_column data) ks.
Proof.
  unfold keys_in_frame. rewrite keys_compiled, !Forall_forall.
  split; intros Hall k Hk; apply Hall; by apply elem_of_group_keys.
Qed.

(** X10.  The two halves of the script against each other.  With a
    codebook table that has the three fields and data with distinct
    column names: when every cell of "column_name" names a column of the
    data, and every column so named is of one data type with the old
    and new values that the codebook holds for it, the polars half
    returns exactly the dataset that the pandas half returns; when some
    cell of "column_name" names no column of the data, the pandas half
    still returns a dataset and the polars half raises.  Both hold
    whatever the installed polars does outside one data type. *)
Theorem main_pl_against_main_pd (engine : polars)
    (csv_codebook data : DataFrame) (ks os ns : list value) :
  Dict.get csv_codebook "column_name" = Some ks ->
  Dict.get csv_codebook "old_values" = Some os ->
  Dict.get csv_codebook "new_labels" = Some ns ->
  NoDup (column_names data) ->
  (Forall (names_column data) ks -> typed_for data (compiled ks os ns) ->
   main_pl engine csv_codebook data = main_pd csv_codebook data)
  /\ (~ Forall (names_column data) ks ->
      (exists data', main_pd csv_codebook data = Ok data')
      /\ exists e, main_pl engine csv_codebook data = Raise e).
Proof.
  intros Hc Ho Hn Hnd.
  destruct (main_compiled csv_codebook ks os ns Hc Ho Hn) as [Hpd Hpl].
  unfold main_pl, main_pd. rewrite Hpd, Hpl. simpl. split.
  - intros Hall Htyped. apply recode_pl_typed; [done| |done].
    by apply keys_in_frame_compiled.
  - intros Hnot. split; [by eexists|].
    destruct (recode_pl_absent engine data (compiled ks os ns)) as (e & He & _);
      [|by exists e].
    intros Hkeys. apply Hnot. by eapply keys_in_frame_compiled.
Qed.

Lemma main_pl_against_main_pd_witness :
  main_pl refuse grp_sex_codebook grp_sex_data = main_pd grp_sex_codebook grp_sex_data.
Proof.
  refine (proj1 (main_pl_against_main_pd refuse grp_sex_codebook grp_sex_data
                   [VStr "grp"; VStr "sex"; VStr "grp"] [VStr "A"; VStr "m"; VStr "B"]
                   [VStr "X"; VStr "Male"; VStr "Y"] eq_refl eq_refl eq_refl _) _ _).
  - compute_done.
  - repeat constructor.
  - compute_done.
Defined.
